(** * Cartographer Discovery Charts: edge handlers, rate limiter and canvas numerics

    A shallow embedding of
    - [supabase/functions/_shared/rateLimit.ts]     ([checkRateLimit], [logRequest]),
    - [supabase/functions/text-to-speech/index.ts] and
      [supabase/functions/ingestPoster/index.ts]    (the two edge handlers),
    - the component [TextRemovalTool]   ([resizeImageIfNeeded], [inpaintRegion],
                                         [handleRemoveText]),
    - the component [ImageEditor]       (the alpha loop of [removeBackground]),
    - [src/pages/OverlayCreator.tsx]    (the stacking order given by [handleSave]),
    followed by the properties of the specification that concern them. *)

From Stdlib Require Import ZArith Lia Bool DecimalString.
From Stdlib Require Import Floats.PrimFloat Floats.FloatOps Floats.SpecFloat.
From stdpp Require Import base strings list.

Local Open Scope string_scope.
Local Open Scope list_scope.
Local Open Scope Z_scope.

(** ** JavaScript values, exceptions and effects *)

Module Js.

(** An [Error] object, as far as the handlers look at it. *)
Record JsError := { err_name : string; err_message : string }.

(** What a [catch (error)] clause can receive: an [Error] instance or any
    other thrown value ([error instanceof Error ? ... : ...]). *)
Inductive Thrown :=
| ThrowError (e : JsError)
| ThrowOther.

Inductive Completion (A : Type) :=
| Normal (a : A)
| Abrupt (t : Thrown).
Arguments Normal {A} a.
Arguments Abrupt {A} t.

(** Parsed JSON, as [await req.json()] delivers it. *)
#[local] Unset Elimination Schemes.
Inductive Json :=
| JNull
| JBool (b : bool)
| JNum (n : Z)
| JStr (s : string)
| JArr (items : list Z)
| JObj (fields : list (string * Json)).
#[local] Set Elimination Schemes.

(** The value of a binding: a JSON value or [undefined]. *)
Definition JsVal := option Json.

(** [!v] is [negb (truthy v)]. *)
Definition truthy (v : JsVal) : bool :=
  match v with
  | None => false
  | Some JNull => false
  | Some (JBool b) => b
  | Some (JNum n) => negb (Z.eqb n 0)
  | Some (JStr s) => negb (String.eqb s "")
  | Some (JArr _) => true
  | Some (JObj _) => true
  end.

Fixpoint assoc {A : Type} (k : string) (l : list (string * A)) : option A :=
  match l with
  | [] => None
  | (k', v) :: l' => if String.eqb k k' then Some v else assoc k l'
  end.

(** Property read [o.k] on a parsed JSON value (the keys read by the handlers
    are not members of any built-in prototype). *)
Definition get (o : Json) (k : string) : JsVal :=
  match o with
  | JObj fields => assoc k fields
  | _ => None
  end.

Definition TypeError (msg : string) : Thrown :=
  ThrowError {| err_name := "TypeError"; err_message := msg |}.
Definition RangeError (msg : string) : Thrown :=
  ThrowError {| err_name := "RangeError"; err_message := msg |}.

(** [error instanceof Error ? error.name : 'Unknown'] *)
Definition name_or_unknown (t : Thrown) : string :=
  match t with
  | ThrowError e => err_name e
  | ThrowOther => "Unknown"
  end.

(** The decimal digits of an integer, with a minus sign when negative: what
    [String(n)] is for a number [n] in the range of the safe integers. *)
Definition decimal (n : Z) : string := NilZero.string_of_int (Z.to_int n).

Definition safe_integer (n : Z) : bool :=
  (- 9007199254740992 <=? n) && (n <=? 9007199254740992).

(** [Math.round (n / d)] for integers [n] and [d > 0]: the nearest integer,
    a tie going to the larger one.  (The quotients taken by the code are far
    from the precision limit of a double, so the division is exact enough for
    the rounding to be the mathematical one.) *)
Definition Math_round_div (n d : Z) : Z := (2 * n + d) / (2 * d).

End Js.
Export Js.

(** ** The world outside the handlers *)

(** A row of [public.request_logs]; [created_at] in milliseconds since the
    epoch, the granularity of [Date.now()] and of the window start sent to the
    store. *)
Record RequestLogEntry := {
  user_id : string;
  endpoint : string;
  created_at : Z
}.

(** Calls that leave the handler, in the order they are made. *)
Inductive Effect :=
| EvAuthGetUser (authorization : option string)
| EvRoleLookup (user : string)
| EvLogsSelect (user ep : string) (windowStart : Z)
| EvLogsInsert (user ep : string)
| EvFetchSpeech (voiceId text modelId : JsVal)
| EvStorageUpload (path : string)
| EvPostersInsert (posterId : string)
| EvConsole (line : string).

(** An upstream side effect: the third-party API call, the storage write or the
    database write of a handler's "delegate" step. *)
Definition is_upstream (e : Effect) : bool :=
  match e with
  | EvFetchSpeech _ _ _ | EvStorageUpload _ | EvPostersInsert _ => true
  | _ => false
  end.

(** A consultation of the rate limiter's log store. *)
Definition is_rate_check (e : Effect) : bool :=
  match e with
  | EvLogsSelect _ _ _ => true
  | _ => false
  end.

(** An attempt to write a RequestLogEntry. *)
Definition is_log_write (e : Effect) : bool :=
  match e with
  | EvLogsInsert _ _ => true
  | _ => false
  end.

Record World := {
  request_logs : list RequestLogEntry;
  effects : list Effect            (* oldest first *)
}.

(** How a call to the log store can fail: the client resolves with
    [{ error }], or the awaited promise rejects (store unreachable). *)
Inductive StoreFault :=
| ReplyError (e : JsError)
| Rejects (t : Thrown).

Record User := { uid : string }.

(** [{ data: { user }, error }] of [supabase.auth.getUser()]. *)
Record AuthReply := { auth_user : option User; auth_error : option JsError }.

(** [fetch] rejects, or resolves with a response whose body is read later. *)
Inductive FetchOutcome :=
| FetchRejects (t : Thrown)
| FetchResponse (ok : bool) (status : Z) (arrayBuffer : Completion (list Z)).

(** Everything the handlers do not control.  The last two fields are the
    conversions of the JavaScript engine that are not spelled out below: the
    digits [String(n)] gives a number beyond the safe integers, and
    [new Uint8Array(v)] for a length, a string or an object [v]. *)
Record Env := {
  date_now : Z;                                     (* Date.now() *)
  db_now : Z;                                       (* now() in the database *)
  auth_getUser : option string -> AuthReply;
  user_roles_admin : string -> option unit;         (* { data: roles } of .single() *)
  logs_select_fault : option StoreFault;
  logs_insert_fault : option StoreFault;
  ELEVENLABS_API_KEY : option string;
  fetch_speech : JsVal -> JsVal -> JsVal -> FetchOutcome;
  storage_upload : string -> list Z -> Completion (option JsError);
  posters_insert : string -> Completion (option JsError);
  randomUUID : string;
  Number_toString : Z -> string;
  Uint8Array_from : Json -> Completion (list Z)
}.

(** ** A state-and-exception monad for [async] code *)

Definition M (A : Type) : Type := World -> Completion A * World.

#[global] Instance M_ret : MRet M := fun A a w => (Normal a, w).
#[global] Instance M_bind : MBind M := fun A B f m w =>
  match m w with
  | (Normal a, w') => f a w'
  | (Abrupt t, w') => (Abrupt t, w')
  end.

Definition throw {A : Type} (t : Thrown) : M A := fun w => (Abrupt t, w).

(** [try { body } catch (error) { handler }] *)
Definition try_catch {A : Type} (body : M A) (handler : Thrown -> M A) : M A :=
  fun w =>
    match body w with
    | (Normal a, w') => (Normal a, w')
    | (Abrupt t, w') => handler t w'
    end.

Definition emit (e : Effect) : M unit :=
  fun w => (Normal tt, {| request_logs := request_logs w; effects := effects w ++ [e] |}).

Definition lift {A : Type} (c : Completion A) : M A := fun w => (c, w).

Definition console (line : string) : M unit := emit (EvConsole line).

(** ** [_shared/rateLimit.ts] *)

Module RateLimit.

Record RateLimitConfig := { requests : Z; window : Z (* seconds *) }.

(** The object literal [RATE_LIMITS], its own properties. *)
Definition RATE_LIMITS : list (string * RateLimitConfig) :=
  [ ("historian-qa",   {| requests := 10; window := 60 |});
    ("overlay-artist", {| requests := 5;  window := 60 |});
    ("text-to-speech", {| requests := 20; window := 60 |}) ].

(** The members every object literal inherits from [Object.prototype] (Deno
    removes the accessor [__proto__]). *)
Definition Object_prototype_keys : list string :=
  [ "constructor"; "hasOwnProperty"; "isPrototypeOf"; "propertyIsEnumerable";
    "toLocaleString"; "toString"; "valueOf";
    "__defineGetter__"; "__defineSetter__"; "__lookupGetter__"; "__lookupSetter__" ].

Fixpoint mem (k : string) (l : list string) : bool :=
  match l with
  | [] => false
  | k' :: l' => String.eqb k k' || mem k l'
  end.

(** The three things [RATE_LIMITS[endpoint]] can be: an entry of the table,
    a function or object found on the prototype chain (truthy, and with no
    [window] or [requests]), or [undefined]. *)
Inductive Lookup :=
| Own (limit : RateLimitConfig)
| Inherited
| Undefined.

Definition RATE_LIMITS_get (ep : string) : Lookup :=
  match assoc ep RATE_LIMITS with
  | Some limit => Own limit
  | None => if mem ep Object_prototype_keys then Inherited else Undefined
  end.

Record RateCheck := { allowed : bool; remaining : Z }.

(** [{ data, error }] of the awaited query. *)
Record QueryReply := {
  reply_data : option (list RequestLogEntry);
  reply_error : option JsError
}.

(** [.eq('user_id', userId).eq('endpoint', endpoint).gte('created_at', windowStart)] *)
Definition matches (userId ep : string) (windowStart : Z) (r : RequestLogEntry) : bool :=
  String.eqb (user_id r) userId && String.eqb (endpoint r) ep && (windowStart <=? created_at r).

(** [await supabase.from('request_logs').select('id')...] *)
Definition logs_select (env : Env) (userId ep : string) (windowStart : Z) : M QueryReply :=
  fun w =>
    let w' := {| request_logs := request_logs w;
                 effects := effects w ++ [EvLogsSelect userId ep windowStart] |} in
    match logs_select_fault env with
    | None =>
        (Normal {| reply_data := Some (filter (fun r => Is_true (matches userId ep windowStart r))
                                              (request_logs w));
                   reply_error := None |}, w')
    | Some (ReplyError e) => (Normal {| reply_data := None; reply_error := Some e |}, w')
    | Some (Rejects t) => (Abrupt t, w')
    end.

(** The trigger [cleanup_request_logs]: after an insert, rows older than one
    hour are deleted. *)
Definition delete_old_request_logs (env : Env) (rows : list RequestLogEntry)
  : list RequestLogEntry :=
  filter (fun r => Is_true (negb (created_at r <? db_now env - 3600000))) rows.

(** [await supabase.from('request_logs').insert({ user_id, endpoint })] *)
Definition logs_insert (env : Env) (userId ep : string) : M unit :=
  fun w =>
    let tr := effects w ++ [EvLogsInsert userId ep] in
    match logs_insert_fault env with
    | None =>
        let row := {| user_id := userId; endpoint := ep; created_at := db_now env |} in
        (Normal tt, {| request_logs := delete_old_request_logs env (request_logs w ++ [row]);
                       effects := tr |})
    | Some (ReplyError _) => (Normal tt, {| request_logs := request_logs w; effects := tr |})
    | Some (Rejects t) => (Abrupt t, {| request_logs := request_logs w; effects := tr |})
    end.

Definition fail_open : RateCheck := {| allowed := true; remaining := 999 |}.

Definition checkRateLimit (env : Env) (userId ep : string) : M RateCheck :=
  match RATE_LIMITS_get ep with
  | Undefined => mret fail_open
  | Inherited =>
      (* limit.window is undefined: the time value is NaN and toISOString
         throws, before the try block is entered *)
      throw (RangeError "Invalid time value")
  | Own limit =>
      let now := date_now env in
      let windowStart := now - window limit * 1000 in
      try_catch
        (reply ← logs_select env userId ep windowStart;
         match reply_error reply with
         | Some e =>
             console ("[RATE-LIMIT] Error checking rate limit: " +:+ err_name e);;
             mret fail_open
         | None =>
             let count := match reply_data reply with
                          | Some rows => Z.of_nat (length rows)
                          | None => 0
                          end in
             let remaining := Z.max 0 (requests limit - count) in
             mret {| allowed := count <? requests limit; remaining := remaining |}
         end)
        (fun error =>
           console ("[RATE-LIMIT] Exception: " +:+ name_or_unknown error);;
           mret fail_open)
  end.

Definition logRequest (env : Env) (userId ep : string) : M unit :=
  try_catch
    (logs_insert env userId ep)
    (fun error =>
       console ("[RATE-LIMIT] Failed to log request: " +:+ name_or_unknown error)).

End RateLimit.

(** ** The edge handlers *)

Record Request := {
  method : string;
  authorization : option string;        (* req.headers.get('Authorization') *)
  json : Completion Json                (* await req.json() *)
}.

Inductive Body :=
| NoBody
| JsonBody (j : Json)                   (* JSON.stringify (j) *)
| BytesBody (bytes : list Z).

Record Response := {
  status : Z;
  headers : list (string * string);
  body : Body
}.

Definition corsHeaders : list (string * string) :=
  [ ("Access-Control-Allow-Origin", "*");
    ("Access-Control-Allow-Headers", "authorization, x-client-info, apikey, content-type") ].

(** [new Response(JSON.stringify(j), { status, headers: { ...corsHeaders,
    'Content-Type': 'application/json' } })] *)
Definition json_response (st : Z) (j : Json) : Response :=
  {| status := st;
     headers := corsHeaders ++ [("Content-Type", "application/json")];
     body := JsonBody j |}.

Definition error_response (st : Z) (msg : string) : Response :=
  json_response st (JObj [("error", JStr msg)]).

(** [new Response(null, { headers: corsHeaders })] *)
Definition preflight : Response :=
  {| status := 200; headers := corsHeaders; body := NoBody |}.

(** Destructuring [const { first, ... } = await req.json()]: [null] cannot be
    destructured. *)
Definition is_null (j : Json) : bool :=
  match j with
  | JNull => true
  | _ => false
  end.

Definition destructure (first : string) (j : Json) : M Json :=
  if is_null j then
    throw (TypeError ("Cannot destructure property '" +:+ first
                      +:+ "' of '(intermediate value)' as it is null."))
  else mret j.

Definition getUser (env : Env) (authHeader : option string) : M AuthReply :=
  emit (EvAuthGetUser authHeader);;
  mret (auth_getUser env authHeader).

(** [authError || !user] *)
Definition authenticated (r : AuthReply) : option User :=
  match auth_error r with
  | Some _ => None
  | None => auth_user r
  end.

Module TextToSpeech.
Import RateLimit.

Definition rate_limited : Response :=
  json_response 429
    (JObj [("error", JStr "Rate limit exceeded. Please try again later.");
           ("remaining", JNum 0)]).

(** [!apiKey] *)
Definition usable_key (k : option string) : option string :=
  match k with
  | Some s => if String.eqb s "" then None else Some s
  | None => None
  end.

(** [fetch(`https://api.elevenlabs.io/v1/text-to-speech/${voiceId}`, ...)] *)
Definition fetch (env : Env) (voiceId text modelId : JsVal) : M FetchOutcome :=
  emit (EvFetchSpeech voiceId text modelId);;
  mret (fetch_speech env voiceId text modelId).

Definition handler (env : Env) (req : Request) : M Response :=
  if String.eqb (method req) "OPTIONS" then mret preflight else
  try_catch
    (parsed ← lift (json req);
     o ← destructure "text" parsed;
     let text := get o "text" in
     let voiceId := get o "voiceId" in
     let modelId := match get o "modelId" with
                    | None => Some (JStr "eleven_multilingual_v2")
                    | v => v
                    end in
     let authHeader := authorization req in
     reply ← getUser env (Some (default "" authHeader));
     match authenticated reply with
     | None => mret (error_response 401 "Unauthorized")
     | Some user =>
         rateCheck ← checkRateLimit env (uid user) "text-to-speech";
         if negb (allowed rateCheck) then mret rate_limited else
         logRequest env (uid user) "text-to-speech";;
         match usable_key (ELEVENLABS_API_KEY env) with
         | None =>
             console "[TEXT-TO-SPEECH] ElevenLabs API key not configured";;
             mret (error_response 500 "Speech service not configured. Contact administrator.")
         | Some apiKey =>
             if negb (truthy text) || negb (truthy voiceId) then
               mret (error_response 400 "Missing required parameters: text and voiceId")
             else
               console "[TEXT-TO-SPEECH] Converting text with voice";;
               response ← fetch env voiceId text modelId;
               match response with
               | FetchRejects t => throw t
               | FetchResponse false _ _ =>
                   console "[TEXT-TO-SPEECH] ElevenLabs API error";;
                   mret (error_response 500 "Failed to generate audio. Please try again.")
               | FetchResponse true _ arrayBuffer =>
                   audioData ← lift arrayBuffer;
                   mret {| status := 200;
                           headers := corsHeaders ++ [("Content-Type", "audio/mpeg")];
                           body := BytesBody audioData |}
               end
         end
     end)
    (fun error =>
       console ("[TEXT-TO-SPEECH] Error: " +:+ name_or_unknown error);;
       mret (error_response 500 "Unable to generate speech. Please try again.")).

End TextToSpeech.

Module IngestPoster.

Definition role_lookup (env : Env) (user : string) : M (option unit) :=
  emit (EvRoleLookup user);;
  mret (user_roles_admin env user).

(** [String(n)] *)
Definition Number_show (env : Env) (n : Z) : string :=
  if safe_integer n then decimal n else Number_toString env n.

(** [`${v}`]: the string a template literal makes of a value.  An array is
    joined with commas; an object is [[object Object]] unless a property of
    its own hides [Object.prototype.toString], and then no primitive value is
    found for it. *)
Definition show (env : Env) (v : JsVal) : Completion string :=
  match v with
  | None => Normal "undefined"
  | Some JNull => Normal "null"
  | Some (JBool b) => Normal (if b then "true" else "false")
  | Some (JNum n) => Normal (Number_show env n)
  | Some (JStr s) => Normal s
  | Some (JArr items) => Normal (String.concat "," (map (Number_show env) items))
  | Some (JObj fields) =>
      match assoc "toString" fields with
      | Some _ => Abrupt (TypeError "Cannot convert object to primitive value")
      | None => Normal "[object Object]"
      end
  end.

(** [new Uint8Array(v)]: the elements of an array, each modulo 256; a negative
    length is refused. *)
Definition Uint8Array_new (env : Env) (v : JsVal) : Completion (list Z) :=
  match v with
  | None | Some JNull => Normal []
  | Some (JBool b) => Normal (if b then [0] else [])
  | Some (JArr items) => Normal (map (fun n => n mod 256) items)
  | Some (JNum n) =>
      if n <? 0 then
        Abrupt (RangeError ("Invalid typed array length: " +:+ Number_show env n))
      else Uint8Array_from env (JNum n)
  | Some (JStr s) => Uint8Array_from env (JStr s)
  | Some (JObj fields) => Uint8Array_from env (JObj fields)
  end.

(** [await supabase.storage.from('tiles').upload(tmpPath, new Uint8Array(bytes), ...)] *)
Definition upload (env : Env) (path : string) (bytes : JsVal) : M (option JsError) :=
  data ← lift (Uint8Array_new env bytes);
  emit (EvStorageUpload path);;
  lift (storage_upload env path data).

(** [await supabase.from('posters').insert({ id: posterId, ... })] *)
Definition insert_poster (env : Env) (posterId : string) : M (option JsError) :=
  emit (EvPostersInsert posterId);;
  lift (posters_insert env posterId).

Definition handler (env : Env) (req : Request) : M Response :=
  if String.eqb (method req) "OPTIONS" then mret preflight else
  try_catch
    (let authHeader := authorization req in
     reply ← getUser env authHeader;
     match authenticated reply with
     | None => mret (error_response 401 "Unauthorized")
     | Some user =>
         roles ← role_lookup env (uid user);
         match roles with
         | None => mret (error_response 403 "Forbidden - Admin access required")
         | Some _ =>
             parsed ← lift (json req);
             o ← destructure "title" parsed;
             let title := get o "title" in
             let filename := get o "filename" in
             let bytes := get o "bytes" in
             if negb (truthy title) || negb (truthy filename) || negb (truthy bytes) then
               mret (error_response 400 "Missing required fields")
             else
               let posterId := randomUUID env in
               name ← lift (show env filename);
               let tmpPath := "uploads/" +:+ posterId +:+ "/" +:+ name in
               shown ← lift (show env title);
               console ("Ingesting poster: " +:+ shown +:+ " (" +:+ posterId +:+ ")");;
               uploadError ← upload env tmpPath bytes;
               match uploadError with
               | Some e =>
                   console "Upload error:";;
                   mret (error_response 500 (err_message e))
               | None =>
                   insertError ← insert_poster env posterId;
                   match insertError with
                   | Some e =>
                       console "Insert error:";;
                       mret (error_response 500 (err_message e))
                   | None =>
                       mret (json_response 200
                               (JObj [("posterId", JStr posterId);
                                      ("status", JStr "queued");
                                      ("message", JStr "Poster uploaded. Tiling will be processed by worker.")]))
                   end
               end
         end
     end)
    (fun error =>
       console "Error:";;
       let message := match error with
                      | ThrowError e => err_message e
                      | ThrowOther => "An error occurred"
                      end in
       mret (error_response 500 message)).

End IngestPoster.

(** ** The component [TextRemovalTool]: downscaling and inpainting *)

(** [for (let i = lo; i < lo + len; i++)] *)
Definition range (lo len : Z) : list Z :=
  map (fun k => lo + Z.of_nat k) (seq 0 (Z.to_nat len)).

(** An [ImageData]: RGBA bytes, row-major.  The browser keeps
    [length data = 4 * img_width * img_height] and every element in [0, 255]. *)
Record ImageData := {
  data : list Z;
  img_width : Z;
  img_height : Z
}.

(** A store into a [Uint8ClampedArray]: integers are clamped to a byte, an
    index outside the array is ignored. *)
Definition clamp8 (v : Z) : Z := Z.max 0 (Z.min 255 v).

Definition store (d : list Z) (idx v : Z) : list Z :=
  if idx <? 0 then d else <[Z.to_nat idx := clamp8 v]> d.

(** A read [data[idx]] (the code only reads inside the array). *)
Definition load (d : list Z) (idx : Z) : Z :=
  if idx <? 0 then 0 else default 0 (d !! Z.to_nat idx).

Module TextRemovalTool.

Definition MAX_IMAGE_DIMENSION : Z := 2560.

(** The [{ width, height }] that [resizeImageIfNeeded] gives the canvas and
    returns, from the image's [naturalWidth] and [naturalHeight]. *)
Definition resizeImageIfNeeded (naturalWidth naturalHeight : Z) : Z * Z :=
  let width := naturalWidth in
  let height := naturalHeight in
  if (width >? MAX_IMAGE_DIMENSION) || (height >? MAX_IMAGE_DIMENSION) then
    if width >? height then
      (MAX_IMAGE_DIMENSION, Math_round_div (height * MAX_IMAGE_DIMENSION) width)
    else
      (Math_round_div (width * MAX_IMAGE_DIMENSION) height, MAX_IMAGE_DIMENSION)
  else (width, height).

Record TextRegion := {
  x : Z;
  y : Z;
  width : Z;
  height : Z;
  text : string
}.

Definition margin : Z := 5.

(** [sx >= x && sx < x + width && sy >= y && sy < y + height] *)
Definition in_region (x y width height sx sy : Z) : bool :=
  (sx >=? x) && (sx <? x + width) && (sy >=? y) && (sy <? y + height).

(** [sx < 0 || sy < 0 || sx >= imgWidth || sy >= imageData.height] *)
Definition out_of_bounds (imgWidth imgHeight sx sy : Z) : bool :=
  (sx <? 0) || (sy <? 0) || (sx >=? imgWidth) || (sy >=? imgHeight).

(** The running sums [r, g, b, count]. *)
Record Sums := { sum_r : Z; sum_g : Z; sum_b : Z; count : Z }.

(** The body of the two sampling loops. *)
Definition sample (d : list Z) (imgWidth imgHeight x y width height px py : Z)
           (acc : Sums) (dy dx : Z) : Sums :=
  let sx := px + dx in
  let sy := py + dy in
  if in_region x y width height sx sy then acc
  else if out_of_bounds imgWidth imgHeight sx sy then acc
  else
    let idx := (sy * imgWidth + sx) * 4 in
    {| sum_r := sum_r acc + load d idx;
       sum_g := sum_g acc + load d (idx + 1);
       sum_b := sum_b acc + load d (idx + 2);
       count := count acc + 1 |}.

Definition surroundings (d : list Z) (imgWidth imgHeight x y width height px py : Z) : Sums :=
  fold_left
    (fun acc dy =>
       fold_left
         (fun acc dx => sample d imgWidth imgHeight x y width height px py acc dy dx)
         (range (- margin) (2 * margin + 1)) acc)
    (range (- margin) (2 * margin + 1))
    {| sum_r := 0; sum_g := 0; sum_b := 0; count := 0 |}.

(** The body of the two pixel loops, on the array as it is at that moment. *)
Definition fill_pixel (imgWidth imgHeight x y width height : Z)
           (d : list Z) (py px : Z) : list Z :=
  if out_of_bounds imgWidth imgHeight px py then d
  else
    let s := surroundings d imgWidth imgHeight x y width height px py in
    if count s >? 0 then
      let idx := (py * imgWidth + px) * 4 in
      let d1 := store d idx (Math_round_div (sum_r s) (count s)) in
      let d2 := store d1 (idx + 1) (Math_round_div (sum_g s) (count s)) in
      let d3 := store d2 (idx + 2) (Math_round_div (sum_b s) (count s)) in
      store d3 (idx + 3) 255
    else d.

(** [inpaintRegion] mutates [imageData.data] in place; here it returns the
    array it leaves. *)
Definition inpaintRegion (imageData : ImageData) (x y width height : Z) : ImageData :=
  let imgWidth := img_width imageData in
  let imgHeight := img_height imageData in
  {| data :=
       fold_left
         (fun d py =>
            fold_left
              (fun d px => fill_pixel imgWidth imgHeight x y width height d py px)
              (range x width) d)
         (range y height) (data imageData);
     img_width := imgWidth;
     img_height := imgHeight |}.

(** [textRegions.forEach(region => inpaintRegion(workingImageData, ...))]
    in [handleRemoveText]: one working copy, filled region after region. *)
Definition handleRemoveText (original : ImageData) (textRegions : list TextRegion) : ImageData :=
  fold_left
    (fun working region =>
       inpaintRegion working (x region) (y region) (width region) (height region))
    textRegions original.

End TextRemovalTool.

(** ** The component [ImageEditor]: the alpha channel of [removeBackground] *)

Module ImageEditor.

(** The result of [Math.round] on a double. *)
Inductive Rounded :=
| RInt (z : Z)
| RNaN
| RPosInf
| RNegInf.

(** [Math.round]: the nearest integer, a tie going toward plus infinity;
    computed exactly on the mantissa and exponent of the double. *)
Definition Math_round (v : float) : Rounded :=
  match Prim2SF v with
  | S754_zero _ => RInt 0
  | S754_infinity neg => if neg then RNegInf else RPosInf
  | S754_nan => RNaN
  | S754_finite neg m e =>
      let n := if neg then Z.neg m else Z.pos m in
      if e >=? 0 then RInt (n * 2 ^ e)
      else RInt (Math_round_div n (2 ^ (- e)))
  end.

(** The conversion a [Uint8ClampedArray] applies to a stored number. *)
Definition ToUint8Clamp (r : Rounded) : Z :=
  match r with
  | RInt z => clamp8 z
  | RNaN => 0
  | RPosInf => 255
  | RNegInf => 0
  end.

(** [Math.round((1 - maskValue) * 255)] *)
Definition alpha (maskValue : float) : Rounded :=
  Math_round (PrimFloat.mul (PrimFloat.sub 1%float maskValue) 255%float).

(** [data[i * 4 + 3] = alpha] *)
Definition put_alpha (d : list Z) (i : nat) (maskValue : float) : list Z :=
  <[(i * 4 + 3)%nat := ToUint8Clamp (alpha maskValue)]> d.

(** [for (let i = 0; i < mask.data.length; i++) { ... }], from index [i]. *)
Fixpoint alpha_loop (i : nat) (mask : list float) (d : list Z) : list Z :=
  match mask with
  | [] => d
  | maskValue :: rest => alpha_loop (S i) rest (put_alpha d i maskValue)
  end.

(** The bytes [removeBackground] hands to [putImageData]: those of the canvas,
    with the alpha channel taken from the mask. *)
Definition removeBackground (mask : list float) (d : list Z) : list Z :=
  alpha_loop 0 mask d.

End ImageEditor.

(** ** [OverlayCreator.tsx]: the stacking order given by [handleSave] *)

Module OverlayCreator.

(** A row of [public.overlays] ([z_index integer DEFAULT 0], nullable). *)
Record Overlay := {
  base_map_id : string;
  z_index : option Z
}.

(** [ORDER BY z_index DESC]: a NULL sorts before every number. *)
Definition sorts_before (a b : option Z) : bool :=
  match a, b with
  | None, _ => true
  | Some _, None => false
  | Some u, Some v => v <=? u
  end.

(** [.select('z_index').eq('base_map_id', baseMapId)
     .order('z_index', { ascending: false }).limit(1).maybeSingle()] *)
Fixpoint first_by_z (rows : list Overlay) (best : option Overlay) : option Overlay :=
  match rows with
  | [] => best
  | r :: rest =>
      match best with
      | None => first_by_z rest (Some r)
      | Some b =>
          first_by_z rest (Some (if sorts_before (z_index b) (z_index r) then b else r))
      end
  end.

Definition maxZData (overlays : list Overlay) (baseMapId : string) : option Overlay :=
  first_by_z (filter (fun o => Is_true (String.eqb (base_map_id o) baseMapId)) overlays) None.

(** [(maxZData?.z_index || -1) + 1]: [||] takes the right operand when the
    left one is [undefined], [null] or [0]. *)
Definition nextZIndex (maxZData : option Overlay) : Z :=
  (match maxZData with
   | Some {| z_index := Some z |} => if Z.eqb z 0 then -1 else z
   | _ => -1
   end) + 1.

(** What [handleSave] depends on besides the table: whether the form is
    filled in ([fabricCanvas], [baseMap], [theme], [year], [title]), whether
    the export of the canvas or the upload of the image fails, and how the
    max-z query and the insert answer. *)
Record Session := {
  form_filled : bool;
  upload_fault : option StoreFault;
  select_fault : option StoreFault;
  insert_fault : option StoreFault
}.

(** The column [z_index] is an [integer]. *)
Definition int4 (z : Z) : bool := (- 2147483648 <=? z) && (z <=? 2147483647).

(** The table after [handleSave].  An upload or insert that fails is thrown
    and caught, and so is a rejected query: nothing is inserted.  The error
    of a query that answers [{ data: null, error }] is not looked at. *)
Definition handleSave (s : Session) (overlays : list Overlay) (baseMapId : string)
  : list Overlay :=
  if negb (form_filled s) then overlays else
  match upload_fault s with
  | Some _ => overlays
  | None =>
      match select_fault s with
      | Some (Rejects _) => overlays
      | reply =>
          let data := match reply with
                      | None => maxZData overlays baseMapId
                      | Some _ => None
                      end in
          let z := nextZIndex data in
          match insert_fault s with
          | Some _ => overlays
          | None =>
              if int4 z then overlays ++ [ {| base_map_id := baseMapId; z_index := Some z |} ]
              else overlays
          end
      end
  end.

End OverlayCreator.


(** ** The component [ImageEditor]: its own [resizeImageIfNeeded] *)

Module ImageEditorCanvas.

Definition MAX_IMAGE_DIMENSION : Z := 1024.

(** The value returned ([true] when the image was scaled down) and the
    [width] and [height] given to the canvas. *)
Definition resizeImageIfNeeded (naturalWidth naturalHeight : Z) : bool * (Z * Z) :=
  let width := naturalWidth in
  let height := naturalHeight in
  if (width >? MAX_IMAGE_DIMENSION) || (height >? MAX_IMAGE_DIMENSION) then
    if width >? height then
      (true, (MAX_IMAGE_DIMENSION, Math_round_div (height * MAX_IMAGE_DIMENSION) width))
    else
      (true, (Math_round_div (width * MAX_IMAGE_DIMENSION) height, MAX_IMAGE_DIMENSION))
  else (false, (width, height)).

End ImageEditorCanvas.

(** ** The component [TextRemovalTool]: the path written by [handleSaveClean] *)

Module SaveClean.
Import Stdlib.Strings.Ascii.

(** [[^.]+$]: the rest of the string, when it has at least one character and
    no dot. *)
Fixpoint no_dot (s : string) : bool :=
  match s with
  | EmptyString => true
  | String c rest => negb (Strings.Ascii.eqb c "."%char) && no_dot rest
  end.

Definition extension_at (s : string) : bool :=
  match s with
  | String c (String _ _ as rest) => Strings.Ascii.eqb c "."%char && no_dot rest
  | _ => false
  end.

(** [file_path.replace(/(\.[^.]+)$/, '_clean$1')]: the pattern is tried at
    every position from the left, and the first match is replaced. *)
Fixpoint cleanFileName (file_path : string) : string :=
  match file_path with
  | EmptyString => EmptyString
  | String c rest =>
      if extension_at file_path then "_clean" +:+ file_path
      else String c (cleanFileName rest)
  end.

End SaveClean.

(** ** The component [RegistrationEditor]: setting the three marks *)

Module RegistrationEditor.

Record RegistrationPoint := { x : float; y : float }.

(** The object held by [points]: built by spreading the previous one, it has
    the marks set so far. *)
Record RegistrationData := {
  tl : option RegistrationPoint;
  tr : option RegistrationPoint;
  bl : option RegistrationPoint
}.

(** ['tl' | 'tr' | 'bl'] *)
Inductive Corner := corner_tl | corner_tr | corner_bl.

(** [points], [currentPoint] *)
Record State := {
  points : option RegistrationData;
  currentPoint : option Corner
}.

Record MouseEvent := { clientX : float; clientY : float }.

(** [canvasRef.current]: its [width] and [height], and its bounding rectangle. *)
Record Canvas := {
  canvas_width : float;
  canvas_height : float;
  rect_left : float;
  rect_top : float;
  rect_width : float;
  rect_height : float
}.

(** [useState(existingRegistration || null)], [useState(null)] *)
Definition initial (existingRegistration : option RegistrationData) : State :=
  {| points := existingRegistration; currentPoint := None |}.

(** [{ x, y }] with [x = (e.clientX - rect.left) * scaleX] and
    [y = (e.clientY - rect.top) * scaleY]. *)
Definition clicked (canvas : Canvas) (e : MouseEvent) : RegistrationPoint :=
  let scaleX := PrimFloat.div (canvas_width canvas) (rect_width canvas) in
  let scaleY := PrimFloat.div (canvas_height canvas) (rect_height canvas) in
  {| x := PrimFloat.mul (PrimFloat.sub (clientX e) (rect_left canvas)) scaleX;
     y := PrimFloat.mul (PrimFloat.sub (clientY e) (rect_top canvas)) scaleY |}.

(** [{ ...prev, [currentPoint]: { x, y } }] *)
Definition setPoint (prev : option RegistrationData) (c : Corner) (p : RegistrationPoint)
  : RegistrationData :=
  let d := match prev with
           | Some d => d
           | None => {| tl := None; tr := None; bl := None |}
           end in
  match c with
  | corner_tl => {| tl := Some p; tr := tr d; bl := bl d |}
  | corner_tr => {| tl := tl d; tr := Some p; bl := bl d |}
  | corner_bl => {| tl := tl d; tr := tr d; bl := Some p |}
  end.

Definition handleCanvasClick (canvasRef : option Canvas) (e : MouseEvent) (s : State) : State :=
  match currentPoint s, canvasRef with
  | Some c, Some canvas =>
      {| points := Some (setPoint (points s) c (clicked canvas e));
         currentPoint := match c with
                         | corner_tl => Some corner_tr
                         | corner_tr => Some corner_bl
                         | corner_bl => None
                         end |}
  | _, _ => s
  end.

Definition handleReset (s : State) : State :=
  {| points := None; currentPoint := Some corner_tl |}.

(** [points?.tl && points?.tr && points?.bl] *)
Definition allPointsSet (s : State) : bool :=
  match points s with
  | Some d => bool_decide (is_Some (tl d)) && bool_decide (is_Some (tr d))
              && bool_decide (is_Some (bl d))
  | None => false
  end.

(** What the user can do: click the canvas, press Reset (disabled while
    [points] is null), press "Start Setting Points" (rendered while there is
    no current point and not all points are set). *)
Inductive Event :=
| Click (canvasRef : option Canvas) (e : MouseEvent)
| Reset
| Start.

Definition offered (s : State) (ev : Event) : bool :=
  match ev with
  | Click _ _ => true
  | Reset => bool_decide (is_Some (points s))
  | Start => negb (bool_decide (is_Some (currentPoint s))) && negb (allPointsSet s)
  end.

Definition react (s : State) (ev : Event) : State :=
  if offered s ev then
    match ev with
    | Click canvasRef e => handleCanvasClick canvasRef e s
    | Reset => handleReset s
    | Start => {| points := points s; currentPoint := Some corner_tl |}
    end
  else s.

End RegistrationEditor.

(** ** Vocabulary of the specification *)

(** One invocation of a handler: the log store as it is, no call made yet. *)
Definition fresh (logs : list RequestLogEntry) : World :=
  {| request_logs := logs; effects := [] |}.

(** A RequestLogEntry of subject [S] for endpoint [E] no older than the window
    of [w] seconds that ends at [now] (milliseconds). *)
Definition in_window (S E : string) (now w : Z) (r : RequestLogEntry) : Prop :=
  user_id r = S /\ endpoint r = E /\ now - w * 1000 <= created_at r.

#[global] Instance in_window_dec S E now w r : Decision (in_window S E now w r).
Proof. unfold in_window. apply _. Defined.

Definition window_count (rows : list RequestLogEntry) (S E : string) (now w : Z) : Z :=
  Z.of_nat (length (filter (in_window S E now w) rows)).

(** The same world with other rows in the log store. *)
Definition with_logs (w : World) (rows : list RequestLogEntry) : World :=
  {| request_logs := rows; effects := effects w |}.

(** The same environment with another state of the log store. *)
Definition with_store (select_fault insert_fault : option StoreFault) (env : Env) : Env :=
  {| date_now := date_now env;
     db_now := db_now env;
     auth_getUser := auth_getUser env;
     user_roles_admin := user_roles_admin env;
     logs_select_fault := select_fault;
     logs_insert_fault := insert_fault;
     ELEVENLABS_API_KEY := ELEVENLABS_API_KEY env;
     fetch_speech := fetch_speech env;
     storage_upload := storage_upload env;
     posters_insert := posters_insert env;
     randomUUID := randomUUID env;
     Number_toString := Number_toString env;
     Uint8Array_from := Uint8Array_from env |}.

(** The same environment at another time of the handler's clock. *)
Definition with_clock (now : Z) (env : Env) : Env :=
  {| date_now := now;
     db_now := db_now env;
     auth_getUser := auth_getUser env;
     user_roles_admin := user_roles_admin env;
     logs_select_fault := logs_select_fault env;
     logs_insert_fault := logs_insert_fault env;
     ELEVENLABS_API_KEY := ELEVENLABS_API_KEY env;
     fetch_speech := fetch_speech env;
     storage_upload := storage_upload env;
     posters_insert := posters_insert env;
     randomUUID := randomUUID env;
     Number_toString := Number_toString env;
     Uint8Array_from := Uint8Array_from env |}.

(** Sample worlds and requests. *)
Definition sample_Uint8Array_from (v : Json) : Completion (list Z) :=
  match v with
  | JNum n => Normal (repeat 0 (Z.to_nat n))
  | _ => Normal []
  end.

Definition make_env (auth : AuthReply) (select_fault insert_fault : option StoreFault)
    (upload : Completion (option JsError)) : Env :=
  {| date_now := 1000000;
     db_now := 1000000;
     auth_getUser := fun _ => auth;
     user_roles_admin := fun _ => Some tt;
     logs_select_fault := select_fault;
     logs_insert_fault := insert_fault;
     ELEVENLABS_API_KEY := Some "key";
     fetch_speech := fun _ _ _ => FetchResponse true 200 (Normal [1; 2; 3]);
     storage_upload := fun _ _ => upload;
     posters_insert := fun _ => Normal None;
     randomUUID := "00000000-0000-4000-8000-000000000000";
     Number_toString := decimal;
     Uint8Array_from := sample_Uint8Array_from |}.

Definition signed_in : AuthReply :=
  {| auth_user := Some {| uid := "u1" |}; auth_error := None |}.

Definition signed_out : AuthReply :=
  {| auth_user := None;
     auth_error := Some {| err_name := "AuthSessionMissingError";
                           err_message := "Auth session missing!" |} |}.

Definition sample_env : Env := make_env signed_in None None (Normal None).

Definition anonymous_env : Env := make_env signed_out None None (Normal None).

Definition unreachable : StoreFault :=
  Rejects (ThrowError {| err_name := "TypeError"; err_message := "fetch failed" |}).

Definition store_down_env : Env :=
  make_env signed_in (Some unreachable) (Some unreachable) (Normal None).

Definition upload_throwing_env (msg : string) : Env :=
  make_env signed_in None None
    (Abrupt (ThrowError {| err_name := "StorageUnknownError"; err_message := msg |})).

Definition sample_logs : list RequestLogEntry :=
  [ {| user_id := "u1"; endpoint := "text-to-speech"; created_at := 990000 |};
    {| user_id := "u1"; endpoint := "text-to-speech"; created_at := 939999 |};
    {| user_id := "u2"; endpoint := "text-to-speech"; created_at := 990000 |};
    {| user_id := "u1"; endpoint := "historian-qa"; created_at := 990000 |} ].

Definition busy_logs : list RequestLogEntry :=
  repeat {| user_id := "u1"; endpoint := "text-to-speech"; created_at := 990000 |} 20.

Definition speak_request (auth : option string) : Request :=
  {| method := "POST";
     authorization := auth;
     json := Normal (JObj [("text", JStr "Hello"); ("voiceId", JStr "v1")]) |}.

Definition poster_request : Request :=
  {| method := "POST";
     authorization := Some "Bearer token";
     json := Normal (JObj [("title", JStr "Map"); ("filename", JStr "map.jpg");
                           ("bytes", JArr [255; 216; 255])]) |}.

Definition anonymous_garbage : Request :=
  {| method := "POST";
     authorization := None;
     json := Abrupt (ThrowError {| err_name := "SyntaxError";
                                   err_message := "Unexpected end of JSON input" |}) |}.

(** The edge handlers of the repository. *)
Inductive EdgeHandler := text_to_speech | ingestPoster.

Definition serve (h : EdgeHandler) : Env -> Request -> M Response :=
  match h with
  | text_to_speech => TextToSpeech.handler
  | ingestPoster => IngestPoster.handler
  end.

(** The credential a handler hands to the auth client. *)
Definition credential (h : EdgeHandler) (req : Request) : option string :=
  match h with
  | text_to_speech => Some (default "" (authorization req))
  | ingestPoster => authorization req
  end.

(** The subject the bearer credential resolves to, if any. *)
Definition subject (h : EdgeHandler) (env : Env) (req : Request) : option User :=
  authenticated (auth_getUser env (credential h req)).

(** Neither an upstream call nor a write of a RequestLogEntry. *)
Definition harmless (e : Effect) : Prop :=
  is_upstream e = false /\ is_log_write e = false.

(** Every upstream side effect of a trace comes after a consultation of the
    rate limiter. *)
Definition consulted_before_upstream (tr : list Effect) : Prop :=
  forall pre e post,
    tr = pre ++ e :: post -> is_upstream e = true ->
    Exists (fun c => is_rate_check c = true) pre.

(** The same, as a check along the trace. *)
Fixpoint guarded (seen : bool) (tr : list Effect) : bool :=
  match tr with
  | [] => true
  | e :: tr' =>
      (if is_upstream e then seen else true) && guarded (seen || is_rate_check e) tr'
  end.

(** [k] is [n / d] rounded to the nearest integer, a tie going up:
    [k - 1/2 <= n / d < k + 1/2]. *)
Definition nearest_integer (k n d : Z) : Prop :=
  2 * n - d < 2 * d * k <= 2 * n + d.

(** An [ImageData] as the browser makes it. *)
Definition well_formed (img : ImageData) : Prop :=
  0 <= img_width img /\ 0 <= img_height img
  /\ Z.of_nat (length (data img)) = 4 * img_width img * img_height img
  /\ Forall (fun v => 0 <= v <= 255) (data img).

Definition inside_image (img : ImageData) (px py : Z) : Prop :=
  0 <= px < img_width img /\ 0 <= py < img_height img.

(** Channel [c] (0 red, 1 green, 2 blue, 3 alpha) of the pixel at [(px, py)]. *)
Definition channel (img : ImageData) (px py c : Z) : Z :=
  load (data img) ((py * img_width img + px) * 4 + c).

(** The 11 x 11 square of pixels at distance at most 5, in either direction,
    from the pixel, row by row. *)
Definition square (px py : Z) : list (Z * Z) :=
  flat_map
    (fun dy => map (fun dx => (px + dx, py + dy))
                   (range (- TextRemovalTool.margin) (2 * TextRemovalTool.margin + 1)))
    (range (- TextRemovalTool.margin) (2 * TextRemovalTool.margin + 1)).

(** A pixel that is sampled: outside the region being filled, inside the image. *)
Definition usable (img : ImageData) (r : TextRemovalTool.TextRegion) (s : Z * Z) : bool :=
  negb (TextRemovalTool.in_region (TextRemovalTool.x r) (TextRemovalTool.y r)
          (TextRemovalTool.width r) (TextRemovalTool.height r) (fst s) (snd s))
  && negb (TextRemovalTool.out_of_bounds (img_width img) (img_height img) (fst s) (snd s)).

Definition neighbours (img : ImageData) (r : TextRemovalTool.TextRegion) (px py : Z)
  : list (Z * Z) :=
  filter (fun s => Is_true (usable img r s)) (square px py).

Definition total (img : ImageData) (c : Z) (l : list (Z * Z)) : Z :=
  foldr (fun s acc => channel img (fst s) (snd s) c + acc) 0 l.

(** The rounded mean of channel [c] over the pixels [l]. *)
Definition average (img : ImageData) (c : Z) (l : list (Z * Z)) : Z :=
  Math_round_div (total img c l) (Z.of_nat (length l)).

Definition in_box (r : TextRemovalTool.TextRegion) (px py : Z) : Prop :=
  TextRemovalTool.x r <= px < TextRemovalTool.x r + TextRemovalTool.width r
  /\ TextRemovalTool.y r <= py < TextRemovalTool.y r + TextRemovalTool.height r.

(** The image with dimensions [W] x [H] whose bytes are [d]. *)
Definition image (W H : Z) (d : list Z) : ImageData :=
  {| data := d; img_width := W; img_height := H |}.

(** One more sampled pixel in the running sums. *)
Definition add_pixel (W : Z) (d : list Z) (acc : TextRemovalTool.Sums) (s : Z * Z)
  : TextRemovalTool.Sums :=
  let idx := (snd s * W + fst s) * 4 in
  {| TextRemovalTool.sum_r := TextRemovalTool.sum_r acc + load d idx;
     TextRemovalTool.sum_g := TextRemovalTool.sum_g acc + load d (idx + 1);
     TextRemovalTool.sum_b := TextRemovalTool.sum_b acc + load d (idx + 2);
     TextRemovalTool.count := TextRemovalTool.count acc + 1 |}.

(** What a pixel of the region holds after the fill of region [r], in terms of
    the image [img] the fill started from. *)
Definition expected (img : ImageData) (r : TextRemovalTool.TextRegion) (px py c : Z) : Z :=
  match neighbours img r px py with
  | [] => channel img px py c
  | l => if c =? 3 then 255 else average img c l
  end.

(** The state of the array while region [r] is being filled: the pixels
    [done] hold their final value, every other pixel is as in [d0]. *)
Definition fill_invariant (W H : Z) (r : TextRemovalTool.TextRegion) (d0 : list Z)
    (done : list (Z * Z)) (d : list Z) : Prop :=
  length d = length d0
  /\ (forall qx qy c, 0 <= qx < W -> 0 <= qy < H -> 0 <= c < 4 ->
        (qx, qy) ∈ done ->
        channel (image W H d) qx qy c = expected (image W H d0) r qx qy c)
  /\ (forall qx qy c, 0 <= qx < W -> 0 <= qy < H -> 0 <= c < 4 ->
        (qx, qy) ∉ done ->
        channel (image W H d) qx qy c = channel (image W H d0) qx qy c).

(** The pixels visited by the two pixel loops of [inpaintRegion], in order. *)
Definition box_pixels (r : TextRemovalTool.TextRegion) : list (Z * Z) :=
  flat_map
    (fun py => map (fun px => (px, py))
                   (range (TextRemovalTool.x r) (TextRemovalTool.width r)))
    (range (TextRemovalTool.y r) (TextRemovalTool.height r)).

Definition sample_pixel : ImageData :=
  {| data := [10; 20; 30; 40]; img_width := 1; img_height := 1 |}.

Definition sample_pair : ImageData :=
  {| data := [10; 20; 30; 255; 50; 60; 70; 255]; img_width := 2; img_height := 1 |}.

Definition sample_row : ImageData :=
  {| data := [10; 20; 30; 40; 1; 2; 3; 4; 5; 7; 9; 11]; img_width := 3; img_height := 1 |}.

Definition box (x y w h : Z) : TextRemovalTool.TextRegion :=
  {| TextRemovalTool.x := x; TextRemovalTool.y := y;
     TextRemovalTool.width := w; TextRemovalTool.height := h;
     TextRemovalTool.text := "word" |}.

(** The upstream side effects of a trace, in order. *)
Definition upstream_calls (tr : list Effect) : list Effect := List.filter is_upstream tr.


Definition not_admin_env : Env :=
  {| date_now := 1000000;
     db_now := 1000000;
     auth_getUser := fun _ => signed_in;
     user_roles_admin := fun _ => None;
     logs_select_fault := None;
     logs_insert_fault := None;
     ELEVENLABS_API_KEY := None;
     fetch_speech := fun _ _ _ => FetchRejects ThrowOther;
     storage_upload := fun _ _ => Normal None;
     posters_insert := fun _ => Normal None;
     randomUUID := "00000000-0000-4000-8000-000000000000";
     Number_toString := decimal;
     Uint8Array_from := sample_Uint8Array_from |}.

Definition insert_failing_env : Env :=
  {| date_now := 1000000;
     db_now := 1000000;
     auth_getUser := fun _ => signed_in;
     user_roles_admin := fun _ => Some tt;
     logs_select_fault := None;
     logs_insert_fault := None;
     ELEVENLABS_API_KEY := Some "key";
     fetch_speech := fun _ _ _ => FetchResponse true 200 (Normal [1; 2; 3]);
     storage_upload := fun _ _ => Normal None;
     posters_insert := fun _ =>
       Normal (Some {| err_name := "PostgrestError"; err_message := "duplicate key" |});
     randomUUID := "00000000-0000-4000-8000-000000000000";
     Number_toString := decimal;
     Uint8Array_from := sample_Uint8Array_from |}.

(** Every pixel of the image has the colour [(r, g, b)]. *)
Definition uniform (img : ImageData) (r g b : Z) : Prop :=
  forall px py, inside_image img px py ->
    channel img px py 0 = r /\ channel img px py 1 = g /\ channel img px py 2 = b.

Definition sample_grey : ImageData :=
  {| data := [7; 8; 9; 10; 7; 8; 9; 20; 7; 8; 9; 30]; img_width := 3; img_height := 1 |}.

(** The marks are set in the order top-left, top-right, bottom-left: what is
    set so far is determined by the mark that is asked for next. *)
Definition in_order (s : RegistrationEditor.State) : Prop :=
  match RegistrationEditor.currentPoint s with
  | Some RegistrationEditor.corner_tl => RegistrationEditor.points s = None
  | Some RegistrationEditor.corner_tr =>
      exists p, RegistrationEditor.points s
                = Some {| RegistrationEditor.tl := Some p;
                          RegistrationEditor.tr := None;
                          RegistrationEditor.bl := None |}
  | Some RegistrationEditor.corner_bl =>
      exists p q, RegistrationEditor.points s
                  = Some {| RegistrationEditor.tl := Some p;
                            RegistrationEditor.tr := Some q;
                            RegistrationEditor.bl := None |}
  | None =>
      RegistrationEditor.points s = None
      \/ exists p q r, RegistrationEditor.points s
                       = Some {| RegistrationEditor.tl := Some p;
                                 RegistrationEditor.tr := Some q;
                                 RegistrationEditor.bl := Some r |}
  end.

(** A registration as the type [RegistrationData] describes it: all three
    marks present. *)
Definition complete (d : RegistrationEditor.RegistrationData) : Prop :=
  is_Some (RegistrationEditor.tl d) /\ is_Some (RegistrationEditor.tr d)
  /\ is_Some (RegistrationEditor.bl d).

Definition sample_canvas : RegistrationEditor.Canvas :=
  {| RegistrationEditor.canvas_width := 2000; RegistrationEditor.canvas_height := 1000;
     RegistrationEditor.rect_left := 10; RegistrationEditor.rect_top := 20;
     RegistrationEditor.rect_width := 500; RegistrationEditor.rect_height := 250 |}.

Definition sample_click (cx cy : float) : RegistrationEditor.MouseEvent :=
  {| RegistrationEditor.clientX := cx; RegistrationEditor.clientY := cy |}.

(** A session in which the form is filled in and every call answers. *)
Definition healthy : OverlayCreator.Session :=
  {| OverlayCreator.form_filled := true;
     OverlayCreator.upload_fault := None;
     OverlayCreator.select_fault := None;
     OverlayCreator.insert_fault := None |}.

(** ** The rate limiter *)

Section RateLimiter.
Import RateLimit.

Lemma matches_in_window S E now w r :
  Is_true (matches S E (now - w * 1000) r) <-> in_window S E now w r.
Proof.
  unfold matches, in_window.
  rewrite !andb_True, !Is_true_true, !String.eqb_eq, Z.leb_le. tauto.
Qed.

Lemma RATE_LIMITS_get_own E limit :
  assoc E RATE_LIMITS = Some limit -> RATE_LIMITS_get E = Own limit.
Proof. unfold RATE_LIMITS_get. now intros ->. Qed.

Lemma window_count_old rows old S E now w :
  Forall (fun r => created_at r < now - w * 1000) old ->
  window_count (rows ++ old) S E now w = window_count rows S E now w.
Proof.
  intros Hold. unfold window_count. rewrite filter_app, length_app.
  replace (filter (in_window S E now w) old) with (@nil RequestLogEntry);
    [simpl; lia |].
  symmetry. induction Hold as [| r old Hr _ IH]; [reflexivity |].
  rewrite filter_cons_False; [exact IH |].
  unfold in_window. lia.
Qed.

(** What [checkRateLimit] answers when the store answers the query. *)
Lemma checkRateLimit_answered env S E limit world :
  assoc E RATE_LIMITS = Some limit ->
  logs_select_fault env = None ->
  checkRateLimit env S E world =
    (let count := window_count (request_logs world) S E (date_now env) (window limit) in
     (Normal {| allowed := count <? requests limit;
                remaining := Z.max 0 (requests limit - count) |},
      {| request_logs := request_logs world;
         effects := effects world ++
                    [EvLogsSelect S E (date_now env - window limit * 1000)] |})).
Proof.
  intros Hown Hup. unfold checkRateLimit.
  rewrite (RATE_LIMITS_get_own _ _ Hown).
  unfold try_catch, mbind, M_bind, logs_select. rewrite Hup. cbn.
  unfold window_count.
  now rewrite (list_filter_iff _ _ _ (matches_in_window S E (date_now env) (window limit))).
Qed.

(** C3. For a subject S, an endpoint E with the configured policy (m, w) and
    the current time now, checkRateLimit counts exactly the RequestLogEntry rows
    of (S, E) whose timestamp is at least now - w, answers
    allowed = (count < m) and remaining = max (0, m - count), leaves the log
    store as it was, and is not influenced by entries older than the window. *)
Theorem checkRateLimit_counts_window
    (env : Env) (S E : string) (m w : Z) (world : World) :
  assoc E RATE_LIMITS = Some {| requests := m; window := w |} ->
  logs_select_fault env = None ->
  let count := window_count (request_logs world) S E (date_now env) w in
  fst (checkRateLimit env S E world)
    = Normal {| allowed := bool_decide (count < m); remaining := Z.max 0 (m - count) |}
  /\ request_logs (snd (checkRateLimit env S E world)) = request_logs world
  /\ forall older,
       Forall (fun r => created_at r < date_now env - w * 1000) older ->
       fst (checkRateLimit env S E (with_logs world (request_logs world ++ older)))
       = fst (checkRateLimit env S E world).
Proof.
  intros Hown Hup count.
  rewrite (checkRateLimit_answered env S E _ world Hown Hup). cbn.
  split; [| split; [reflexivity |]].
  - do 2 f_equal. subst count.
    destruct (Z.ltb_spec (window_count (request_logs world) S E (date_now env) w) m).
    + now rewrite bool_decide_eq_true_2.
    + rewrite bool_decide_eq_false_2; [reflexivity | lia].
  - intros older Hold.
    rewrite (checkRateLimit_answered env S E _ _ Hown Hup). cbn.
    now rewrite (window_count_old _ _ S E _ _ Hold).
Qed.

Lemma checkRateLimit_counts_window_witness :
  fst (checkRateLimit sample_env "u1" "text-to-speech" (fresh sample_logs))
  = Normal {| allowed := true; remaining := 19 |}.
Proof.
  exact (proj1 (checkRateLimit_counts_window sample_env "u1" "text-to-speech" 20 60
                  (fresh sample_logs) eq_refl eq_refl)).
Defined.

(** An endpoint name that is neither in the table nor a member of
    [Object.prototype] gets the fail-open answer, and the store is not asked. *)
Lemma checkRateLimit_no_policy env S E world :
  RATE_LIMITS_get E = Undefined ->
  checkRateLimit env S E world = (Normal fail_open, world).
Proof. unfold checkRateLimit. now intros ->. Qed.

(** C5. The endpoint name "constructor" has no entry in the policy table, yet
    [RATE_LIMITS["constructor"]] is the inherited [Object] function: the guard
    [!limit] is not taken, the window start is not a valid time and
    checkRateLimit throws instead of answering allowed = true, remaining = 999. *)
Theorem checkRateLimit_inherited_key_throws :
  assoc "constructor" RATE_LIMITS = None
  /\ forall env S world,
       checkRateLimit env S "constructor" world
       = (Abrupt (RangeError "Invalid time value"), world).
Proof. split; [reflexivity | intros env S world; reflexivity]. Qed.

(** With a policy, or with a name unknown to the table and to
    [Object.prototype], a failing store query is answered by allowed = true. *)
Lemma checkRateLimit_fails_open env S E world fault :
  logs_select_fault env = Some fault ->
  RATE_LIMITS_get E <> Inherited ->
  fst (checkRateLimit env S E world) = Normal fail_open
  /\ request_logs (snd (checkRateLimit env S E world)) = request_logs world.
Proof.
  intros Hf Hk. unfold checkRateLimit.
  destruct (RATE_LIMITS_get E) as [limit | |]; [| congruence | now cbn].
  unfold try_catch, mbind, M_bind, logs_select. rewrite Hf.
  destruct fault as [e | t]; cbn; auto.
Qed.

(** [logRequest] returns normally whatever the store does. *)
Lemma logRequest_never_throws env S E world :
  fst (logRequest env S E world) = Normal tt.
Proof.
  unfold logRequest, try_catch, logs_insert.
  destruct (logs_insert_fault env) as [[e | t] |]; reflexivity.
Qed.

End RateLimiter.

(** ** The edge handlers: authentication, admission control, failures *)

Section EdgeHandlers.
Import RateLimit.

Lemma guarded_sound tr :
  forall seen, guarded seen tr = true ->
  forall pre e post,
    tr = pre ++ e :: post -> is_upstream e = true ->
    seen = true \/ Exists (fun c => is_rate_check c = true) pre.
Proof.
  induction tr as [| a tr IH]; intros seen Hg pre e post Heq Hup.
  - now destruct pre.
  - cbn in Hg. apply andb_prop in Hg as [Ha Hg].
    destruct pre as [| p pre]; cbn in Heq; injection Heq as <- Heq.
    + rewrite Hup in Ha. now left.
    + destruct (IH _ Hg _ _ _ Heq Hup) as [Hs | Hex].
      * apply orb_prop in Hs as [-> | Hc]; [now left |].
        right. now apply Exists_cons_hd.
      * right. now apply Exists_cons_tl.
Qed.

Lemma guarded_consulted tr :
  guarded false tr = true -> consulted_before_upstream tr.
Proof.
  intros Hg pre e post Heq Hup.
  destruct (guarded_sound tr false Hg pre e post Heq Hup) as [? | ?]; [discriminate | assumption].
Qed.

Lemma is_null_false o : o <> JNull -> is_null o = false.
Proof. destruct o; [congruence | reflexivity ..]. Qed.

Lemma RATE_LIMITS_get_tts :
  RATE_LIMITS_get "text-to-speech" = Own {| requests := 20; window := 60 |}.
Proof. reflexivity. Qed.

Ltac run_handler :=
  unfold serve, TextToSpeech.handler, IngestPoster.handler, TextToSpeech.fetch,
    IngestPoster.role_lookup, IngestPoster.upload, IngestPoster.insert_poster,
    checkRateLimit, logRequest, logs_select, logs_insert,
    getUser, destructure, console, emit, lift, throw, try_catch, fresh,
    mbind, M_bind, mret, M_ret in *;
  try rewrite RATE_LIMITS_get_tts in *;
  cbn [request_logs effects fst snd app] in *.

(* Case analysis in program order: the scrutinee that is evaluated first is
   the one that contains no other match. *)
Ltac step :=
  match goal with
  | |- context [match ?x with _ => _ end] =>
      lazymatch x with
      | context [match _ with _ => _ end] => fail
      | _ => destruct x
      end
  end;
  cbn [request_logs effects fst snd app allowed negb reply_error reply_data].

Ltac branches := repeat step.

(** For each edge handler and each request whose bearer credential resolves to
    no subject: no RequestLogEntry is written and no upstream call is made;
    the answer to a request other than OPTIONS is 401 from ingestPoster, and
    from text-to-speech when the body is readable and not null. *)
Lemma unauthenticated_request_rejected
    (h : EdgeHandler) (env : Env) (req : Request) (logs : list RequestLogEntry) :
  subject h env req = None ->
  let out := serve h env req (fresh logs) in
  request_logs (snd out) = logs
  /\ Forall harmless (effects (snd out))
  /\ (method req <> "OPTIONS" ->
      (h = text_to_speech -> exists o, json req = Normal o /\ o <> JNull) ->
      fst out = Normal (error_response 401 "Unauthorized")
      /\ status (error_response 401 "Unauthorized") = 401).
Proof.
  intros Hsub out. subst out. unfold subject, credential, harmless in *.
  destruct h; run_handler.
  - destruct (String.eqb_spec (method req) "OPTIONS") as [Hm | Hm]; cbn.
    { repeat split; [constructor | tauto]. }
    destruct (json req) as [o | t] eqn:Hjson; cbn.
    + destruct (is_null o) eqn:Hnull; cbn; rewrite ?Hsub; cbn;
        (split; [reflexivity |]); (split; [repeat constructor |]); intros _ Hbody;
        destruct (Hbody eq_refl) as (o' & Ho' & Hnn); simplify_eq; auto.
      apply is_null_false in Hnn. congruence.
    + split; [reflexivity |]. split; [repeat constructor |].
      intros _ Hbody. destruct (Hbody eq_refl) as (o' & Ho' & _). discriminate.
  - destruct (String.eqb_spec (method req) "OPTIONS") as [Hm | Hm]; cbn.
    { repeat split; [constructor | tauto]. }
    rewrite Hsub. cbn. repeat split; repeat constructor.
Qed.

(** C1. The text-to-speech handler reads the JSON body before it
    authenticates, where ingestPoster authenticates first.  A request other
    than OPTIONS whose credential resolves to no subject and whose body cannot
    be read, or is null, is answered 500 by text-to-speech and not 401, and
    the credential is not even looked at; ingestPoster answers 401 to the same
    request. *)
Theorem text_to_speech_reads_body_before_authenticating
    (env : Env) (req : Request) (logs : list RequestLogEntry) :
  method req <> "OPTIONS" ->
  subject text_to_speech env req = None ->
  subject ingestPoster env req = None ->
  (forall o, json req = Normal o -> o = JNull) ->
  let out := serve text_to_speech env req (fresh logs) in
  fst out = Normal (error_response 500 "Unable to generate speech. Please try again.")
  /\ status (error_response 500 "Unable to generate speech. Please try again.") <> 401
  /\ Forall (fun e => forall credential, e <> EvAuthGetUser credential) (effects (snd out))
  /\ fst (serve ingestPoster env req (fresh logs)) = Normal (error_response 401 "Unauthorized").
Proof.
  intros Hm _ Hsub Hbody. cbn zeta. unfold subject, credential in Hsub. run_handler.
  destruct (String.eqb_spec (method req) "OPTIONS") as [? | _]; [contradiction |].
  rewrite Hsub. cbn [fst snd request_logs effects app].
  destruct (json req) as [o | t] eqn:Hjson; cbn [fst snd request_logs effects app].
  - rewrite (Hbody o eq_refl). cbn.
    split; [reflexivity |]. split; [discriminate |]. split; [| reflexivity].
    repeat constructor; discriminate.
  - split; [reflexivity |]. split; [discriminate |]. split; [| reflexivity].
    repeat constructor; discriminate.
Qed.

Lemma text_to_speech_reads_body_before_authenticating_witness :
  fst (serve text_to_speech anonymous_env anonymous_garbage (fresh sample_logs))
  = Normal (error_response 500 "Unable to generate speech. Please try again.")
  /\ fst (serve ingestPoster anonymous_env anonymous_garbage (fresh sample_logs))
     = Normal (error_response 401 "Unauthorized").
Proof.
  pose proof (text_to_speech_reads_body_before_authenticating anonymous_env
                anonymous_garbage sample_logs) as H.
  destruct H as (H1 & _ & _ & H2).
  - discriminate.
  - reflexivity.
  - reflexivity.
  - intros o [=].
  - split; [exact H1 | exact H2].
Defined.

(** C2. The ingestPoster handler puts the message of an exception raised by the
    storage write into the body of its 500 response. *)
Theorem ingestPoster_discloses_exception_message (msg : string) :
  fst (IngestPoster.handler (upload_throwing_env msg) poster_request (fresh sample_logs))
  = Normal (error_response 500 msg).
Proof. reflexivity. Qed.

(** The text-to-speech handler answers every failure with one of three fixed
    sentences. *)
Lemma text_to_speech_failure_is_generic env req logs resp :
  fst (TextToSpeech.handler env req (fresh logs)) = Normal resp ->
  status resp = 500 ->
  resp = error_response 500 "Unable to generate speech. Please try again."
  \/ resp = error_response 500 "Failed to generate audio. Please try again."
  \/ resp = error_response 500 "Speech service not configured. Contact administrator.".
Proof.
  run_handler. branches; intros [= <-] Hs; auto; discriminate Hs.
Qed.

(** C4, as stated, fails on ingestPoster: an authenticated admin's valid
    request is written to storage and to the database without the rate limiter
    having been consulted. *)
Lemma ingestPoster_bypasses_rate_limiter :
  let out := serve ingestPoster sample_env poster_request (fresh busy_logs) in
  subject ingestPoster sample_env poster_request = Some {| uid := "u1" |}
  /\ (exists resp, fst out = Normal resp /\ status resp = 200)
  /\ ~ consulted_before_upstream (effects (snd out)).
Proof.
  cbn zeta. split; [reflexivity |]. split; [eexists; split; reflexivity |].
  intros Hc.
  specialize (Hc [EvAuthGetUser (Some "Bearer token"); EvRoleLookup "u1";
                  EvConsole "Ingesting poster: Map (00000000-0000-4000-8000-000000000000)"]
                 (EvStorageUpload "uploads/00000000-0000-4000-8000-000000000000/map.jpg")
                 [EvPostersInsert "00000000-0000-4000-8000-000000000000"]
                 eq_refl eq_refl).
  repeat (apply Exists_cons in Hc as [Hc | Hc]; [discriminate |]).
  now apply Exists_nil in Hc.
Qed.

(** C4 (amended). The text-to-speech handler consults the rate limiter before
    its upstream call; when the limiter answers allowed = false for the
    authenticated subject, the handler answers 429 with remaining: 0, makes no
    upstream call and writes no log entry.  The ingestPoster handler has no
    admission step: it never consults the limiter and never answers 429. *)
Theorem text_to_speech_admission_control
    (env : Env) (req : Request) (logs : list RequestLogEntry) :
  let out := TextToSpeech.handler env req (fresh logs) in
  consulted_before_upstream (effects (snd out))
  /\ (forall o user rc,
        method req <> "OPTIONS" ->
        json req = Normal o -> o <> JNull ->
        subject text_to_speech env req = Some user ->
        fst (checkRateLimit env (uid user) "text-to-speech" (fresh logs)) = Normal rc ->
        allowed rc = false ->
        fst out = Normal TextToSpeech.rate_limited
        /\ status TextToSpeech.rate_limited = 429
        /\ body TextToSpeech.rate_limited
           = JsonBody (JObj [("error", JStr "Rate limit exceeded. Please try again later.");
                             ("remaining", JNum 0)])
        /\ Forall harmless (effects (snd out))
        /\ request_logs (snd out) = logs)
  /\ (let out' := IngestPoster.handler env req (fresh logs) in
      Forall (fun e => is_rate_check e = false) (effects (snd out'))
      /\ forall resp, fst out' = Normal resp -> status resp <> 429).
Proof.
  cbn zeta. split; [| split].
  - apply guarded_consulted. run_handler. branches; reflexivity.
  - intros o user rc Hm Hjson Hnn Hsub Hrc Hdeny.
    unfold subject, credential, harmless in *. run_handler.
    destruct (String.eqb_spec (method req) "OPTIONS") as [? | _]; [contradiction |].
    rewrite Hjson. cbn.
    rewrite (is_null_false o Hnn). cbn. rewrite Hsub. cbn.
    destruct (logs_select_fault env) as [[e | t] |]; cbn in *; simplify_eq/=.
    rewrite Hdeny. cbn. repeat split; repeat constructor.
  - run_handler. split.
    + branches; repeat constructor.
    + intros resp. branches; intros [= <-]; discriminate.
Qed.

Lemma text_to_speech_admission_control_witness :
  fst (TextToSpeech.handler sample_env (speak_request (Some "Bearer token")) (fresh busy_logs))
  = Normal TextToSpeech.rate_limited.
Proof.
  refine (proj1 (proj1 (proj2
    (text_to_speech_admission_control sample_env (speak_request (Some "Bearer token"))
       busy_logs))
    (JObj [("text", JStr "Hello"); ("voiceId", JStr "v1")]) {| uid := "u1" |}
    {| allowed := false; remaining := 0 |} _ eq_refl _ eq_refl eq_refl eq_refl)).
  - discriminate.
  - discriminate.
Defined.

(** A failing log store is not surfaced by the text-to-speech handler: the
    answer is the one given with a working, empty store. *)
Lemma text_to_speech_store_failure_not_surfaced env req logs fs fi :
  fst (TextToSpeech.handler (with_store (Some fs) (Some fi) env) req (fresh logs))
  = fst (TextToSpeech.handler (with_store None None env) req (fresh [])).
Proof.
  run_handler. unfold with_store.
  cbn [logs_select_fault logs_insert_fault auth_getUser date_now db_now
       ELEVENLABS_API_KEY fetch_speech].
  destruct (String.eqb (method req) "OPTIONS"); [reflexivity |].
  destruct (json req) as [o | t]; [| reflexivity]. cbn.
  destruct (is_null o); cbn; [reflexivity |].
  destruct (authenticated _); cbn; [| reflexivity].
  destruct fs as [? | ?]; destruct fi as [? | ?]; cbn;
    replace (Z.of_nat 0 <? 20) with true by reflexivity; branches; reflexivity.
Qed.

(** C6. A failure of the log store is never surfaced.  With the query failing
    (an error reply or a rejection), checkRateLimit answers allowed = true for
    every endpoint that has a policy, and more generally whenever the call
    asks the store; a call that does not ask the store ends exactly as it does
    with a working store; the table is left as it is.  With the insert
    failing, logRequest returns normally and the table is left as it is.  And
    the text-to-speech handler answers the requester as it does with a
    working, empty store. *)
Theorem log_store_failure_not_surfaced
    (env : Env) (S E : string) (req : Request) (logs : list RequestLogEntry)
    (fs fi : StoreFault) :
  let down := with_store (Some fs) (Some fi) env in
  let checked := checkRateLimit down S E (fresh logs) in
  (forall limit, assoc E RATE_LIMITS = Some limit ->
     fst checked = Normal fail_open /\ allowed fail_open = true)
  /\ (Exists (fun e => is_rate_check e = true) (effects (snd checked)) ->
      exists rc, fst checked = Normal rc /\ allowed rc = true)
  /\ (~ Exists (fun e => is_rate_check e = true) (effects (snd checked)) ->
      checked = checkRateLimit (with_store None None env) S E (fresh logs))
  /\ request_logs (snd checked) = logs
  /\ fst (logRequest down S E (fresh logs)) = Normal tt
  /\ request_logs (snd (logRequest down S E (fresh logs))) = logs
  /\ fst (TextToSpeech.handler down req (fresh logs))
     = fst (TextToSpeech.handler (with_store None None env) req (fresh [])).
Proof.
  cbn zeta.
  split; [| split; [| split; [| split; [| split; [| split]]]]].
  - intros limit Hown. split; [| reflexivity].
    apply (checkRateLimit_fails_open _ S E (fresh logs) fs); [reflexivity |].
    rewrite (RATE_LIMITS_get_own _ _ Hown). discriminate.
  - intros Hasked. unfold checkRateLimit in *.
    destruct (RATE_LIMITS_get E) as [limit | |].
    + exists fail_open. split; [| reflexivity].
      unfold try_catch, mbind, M_bind, logs_select, with_store.
      cbn [logs_select_fault]. destruct fs as [e | t]; reflexivity.
    + cbn in Hasked. now apply Exists_nil in Hasked.
    + cbn in Hasked. now apply Exists_nil in Hasked.
  - intros Hnot. unfold checkRateLimit in *.
    destruct (RATE_LIMITS_get E) as [limit | |]; [| reflexivity | reflexivity].
    exfalso. apply Hnot.
    unfold try_catch, mbind, M_bind, logs_select, with_store, console, emit, fresh.
    cbn [logs_select_fault]. destruct fs as [e | t]; cbn; apply Exists_cons_hd; reflexivity.
  - unfold checkRateLimit.
    destruct (RATE_LIMITS_get E) as [limit | |]; [| reflexivity | reflexivity].
    unfold try_catch, mbind, M_bind, logs_select, with_store.
    cbn [logs_select_fault]. destruct fs as [e | t]; reflexivity.
  - apply logRequest_never_throws.
  - unfold logRequest, try_catch, logs_insert, with_store.
    cbn [logs_insert_fault]. destruct fi as [e | t]; reflexivity.
  - apply text_to_speech_store_failure_not_surfaced.
Qed.


(** X5. Both handlers always answer: no exception leaves them, whatever the
    request and whatever the outside world does, and every answer carries the
    CORS headers. *)
Theorem handlers_answer_with_cors
    (h : EdgeHandler) (env : Env) (req : Request) (logs : list RequestLogEntry) :
  exists resp rest,
    fst (serve h env req (fresh logs)) = Normal resp
    /\ headers resp = corsHeaders ++ rest.
Proof.
  destruct h; run_handler; branches; do 2 eexists; (split; [reflexivity |]);
    first [ exact (eq_sym (app_nil_r corsHeaders)) | reflexivity ].
Qed.

Ltac in_list := repeat first [ apply list_elem_of_here | apply list_elem_of_further ].

Ltac admitted_subject Hm Hjson Hnn Hsub Hrc Hallow :=
  unfold subject, credential in *; run_handler;
  match goal with
  | |- context [String.eqb (method ?r) "OPTIONS"] =>
      destruct (String.eqb_spec (method r) "OPTIONS") as [? | _]; [contradiction |]
  end;
  rewrite Hjson; cbn [fst snd];
  rewrite (is_null_false _ Hnn); cbn [fst snd request_logs effects app];
  rewrite Hsub; cbn [fst snd request_logs effects app];
  match goal with
  | |- context [logs_select_fault ?e] => destruct (logs_select_fault e) as [[? | ?] |]
  end;
  cbn [fst snd request_logs effects app allowed negb reply_error reply_data
       window requests] in *;
  injection Hrc as <-; cbn [allowed fail_open] in Hallow;
  try rewrite Hallow;
  cbn [fst snd request_logs effects app allowed negb reply_error reply_data fail_open].

(** X6. The text-to-speech handler validates the payload only after it has
    logged the request: an authenticated, admitted request without text or
    without voiceId is answered 400 after the log entry has been written (with
    a working store the row is in the table), and no upstream call is made. *)
Theorem text_to_speech_validates_after_logging
    (env : Env) (req : Request) (logs : list RequestLogEntry)
    (o : Json) (user : User) (rc : RateLimit.RateCheck) (key : string) :
  method req <> "OPTIONS" ->
  json req = Normal o -> o <> JNull ->
  subject text_to_speech env req = Some user ->
  fst (checkRateLimit env (uid user) "text-to-speech" (fresh logs)) = Normal rc ->
  allowed rc = true ->
  TextToSpeech.usable_key (ELEVENLABS_API_KEY env) = Some key ->
  truthy (get o "text") && truthy (get o "voiceId") = false ->
  let out := TextToSpeech.handler env req (fresh logs) in
  fst out = Normal (error_response 400 "Missing required parameters: text and voiceId")
  /\ EvLogsInsert (uid user) "text-to-speech" ∈ effects (snd out)
  /\ Forall (fun e => is_upstream e = false) (effects (snd out))
  /\ (logs_insert_fault env = None ->
      {| user_id := uid user; endpoint := "text-to-speech"; created_at := db_now env |}
        ∈ request_logs (snd out)).
Proof.
  intros Hm Hjson Hnn Hsub Hrc Hallow Hkey Hmiss. cbn zeta.
  assert (Hif : negb (truthy (get o "text")) || negb (truthy (get o "voiceId")) = true).
  { destruct (truthy (get o "text")), (truthy (get o "voiceId")); cbn in *; congruence. }
  admitted_subject Hm Hjson Hnn Hsub Hrc Hallow;
    rewrite Hkey, Hif;
    destruct (logs_insert_fault env) as [[? | ?] |];
    cbn [fst snd request_logs effects app];
    (split; [reflexivity |]); (split; [in_list |]);
    (split; [repeat constructor | intros [=] ]).
  all: unfold delete_old_request_logs; apply list_elem_of_filter;
    (split; [cbn; rewrite negb_True, Is_true_true, Z.ltb_lt; lia
            | apply elem_of_app; right; apply list_elem_of_here ]).
Qed.

Lemma text_to_speech_validates_after_logging_witness :
  fst (TextToSpeech.handler sample_env
         {| method := "POST"; authorization := Some "Bearer token";
            json := Normal (JObj [("text", JStr "Hello")]) |} (fresh sample_logs))
  = Normal (error_response 400 "Missing required parameters: text and voiceId").
Proof.
  refine (proj1 (text_to_speech_validates_after_logging sample_env
    {| method := "POST"; authorization := Some "Bearer token";
       json := Normal (JObj [("text", JStr "Hello")]) |} sample_logs
    (JObj [("text", JStr "Hello")]) {| uid := "u1" |}
    {| allowed := true; remaining := 19 |} "key"
    _ eq_refl _ eq_refl eq_refl eq_refl eq_refl eq_refl)); discriminate.
Defined.

(** X7. Without a usable ELEVENLABS_API_KEY (unset or empty) an authenticated,
    admitted request is answered 500 "Speech service not configured", whatever
    its payload; the request has been logged by then, and no upstream call is
    made. *)
Theorem text_to_speech_without_api_key
    (env : Env) (req : Request) (logs : list RequestLogEntry)
    (o : Json) (user : User) (rc : RateLimit.RateCheck) :
  method req <> "OPTIONS" ->
  json req = Normal o -> o <> JNull ->
  subject text_to_speech env req = Some user ->
  fst (checkRateLimit env (uid user) "text-to-speech" (fresh logs)) = Normal rc ->
  allowed rc = true ->
  TextToSpeech.usable_key (ELEVENLABS_API_KEY env) = None ->
  let out := TextToSpeech.handler env req (fresh logs) in
  fst out
    = Normal (error_response 500 "Speech service not configured. Contact administrator.")
  /\ EvLogsInsert (uid user) "text-to-speech" ∈ effects (snd out)
  /\ upstream_calls (effects (snd out)) = [].
Proof.
  intros Hm Hjson Hnn Hsub Hrc Hallow Hkey. cbn zeta.
  admitted_subject Hm Hjson Hnn Hsub Hrc Hallow;
    rewrite Hkey;
    destruct (logs_insert_fault env) as [[? | ?] |];
    cbn [fst snd request_logs effects app];
    (split; [reflexivity |]); (split; [in_list | reflexivity]).
Qed.

Lemma text_to_speech_without_api_key_witness :
  fst (TextToSpeech.handler not_admin_env (speak_request (Some "Bearer token"))
         (fresh sample_logs))
  = Normal (error_response 500 "Speech service not configured. Contact administrator.").
Proof.
  refine (proj1 (text_to_speech_without_api_key not_admin_env
    (speak_request (Some "Bearer token")) sample_logs
    (JObj [("text", JStr "Hello"); ("voiceId", JStr "v1")]) {| uid := "u1" |}
    {| allowed := true; remaining := 19 |}
    _ eq_refl _ eq_refl eq_refl eq_refl eq_refl)); discriminate.
Defined.



(** X9. Per request, text-to-speech makes at most one upstream call (the
    fetch), and ingestPoster makes no upstream call, or the storage upload
    alone, or the storage upload followed by the one insert into posters: never
    an insert without the upload before it, and nothing that undoes the upload. *)
Theorem handlers_upstream_discipline
    (env : Env) (req : Request) (logs : list RequestLogEntry) :
  (length (upstream_calls (effects (snd (TextToSpeech.handler env req (fresh logs))))) <= 1)%nat
  /\ (let calls := upstream_calls (effects (snd (IngestPoster.handler env req (fresh logs)))) in
      calls = []
      \/ (exists path, calls = [EvStorageUpload path])
      \/ (exists path posterId, calls = [EvStorageUpload path; EvPostersInsert posterId])).
Proof.
  cbn zeta. split.
  - run_handler. branches; cbn; lia.
  - run_handler. branches; cbn; eauto.
Qed.

(** X10. ingestPoster answers 403 to an authenticated subject without the
    admin role after the two lookups only: the body is not read (it may be
    unreadable), nothing is uploaded or inserted, the log store is untouched. *)
Theorem ingestPoster_requires_admin
    (env : Env) (req : Request) (logs : list RequestLogEntry) (user : User) :
  method req <> "OPTIONS" ->
  subject ingestPoster env req = Some user ->
  user_roles_admin env (uid user) = None ->
  IngestPoster.handler env req (fresh logs)
  = (Normal (error_response 403 "Forbidden - Admin access required"),
     {| request_logs := logs;
        effects := [EvAuthGetUser (authorization req); EvRoleLookup (uid user)] |}).
Proof.
  intros Hm Hsub Hrole. unfold subject, credential in Hsub. run_handler.
  destruct (String.eqb_spec (method req) "OPTIONS") as [? | _]; [contradiction |].
  rewrite Hsub. cbn [fst snd request_logs effects app]. rewrite Hrole. reflexivity.
Qed.

Lemma ingestPoster_requires_admin_witness :
  fst (IngestPoster.handler not_admin_env anonymous_garbage (fresh sample_logs))
  = Normal (error_response 403 "Forbidden - Admin access required").
Proof.
  refine (f_equal fst (ingestPoster_requires_admin not_admin_env anonymous_garbage
                         sample_logs {| uid := "u1" |} _ eq_refl eq_refl)).
  discriminate.
Defined.

Ltac admin_subject Hm Hsub Hrole Hjson Hnn :=
  unfold subject, credential in *; run_handler;
  match goal with
  | |- context [String.eqb (method ?r) "OPTIONS"] =>
      destruct (String.eqb_spec (method r) "OPTIONS") as [? | _]; [contradiction |]
  end;
  rewrite Hsub; cbn [fst snd request_logs effects app];
  rewrite Hrole; cbn [fst snd request_logs effects app];
  rewrite Hjson; cbn [fst snd request_logs effects app];
  rewrite (is_null_false _ Hnn); cbn [fst snd request_logs effects app].

(** X11. ingestPoster validates before it writes: an admin's request without
    title, filename or bytes is answered 400 and nothing is uploaded or
    inserted. *)
Theorem ingestPoster_missing_fields
    (env : Env) (req : Request) (logs : list RequestLogEntry) (user : User) (o : Json) :
  method req <> "OPTIONS" ->
  subject ingestPoster env req = Some user ->
  user_roles_admin env (uid user) = Some tt ->
  json req = Normal o -> o <> JNull ->
  truthy (get o "title") && truthy (get o "filename") && truthy (get o "bytes") = false ->
  let out := IngestPoster.handler env req (fresh logs) in
  fst out = Normal (error_response 400 "Missing required fields")
  /\ upstream_calls (effects (snd out)) = []
  /\ request_logs (snd out) = logs.
Proof.
  intros Hm Hsub Hrole Hjson Hnn Hmiss. cbn zeta.
  assert (Hif : negb (truthy (get o "title")) || negb (truthy (get o "filename"))
                || negb (truthy (get o "bytes")) = true).
  { destruct (truthy (get o "title")), (truthy (get o "filename")),
      (truthy (get o "bytes")); cbn in *; congruence. }
  admin_subject Hm Hsub Hrole Hjson Hnn. rewrite Hif. repeat split.
Qed.

Lemma ingestPoster_missing_fields_witness :
  fst (IngestPoster.handler sample_env (speak_request (Some "Bearer token"))
         (fresh sample_logs))
  = Normal (error_response 400 "Missing required fields").
Proof.
  refine (proj1 (ingestPoster_missing_fields sample_env
    (speak_request (Some "Bearer token")) sample_logs {| uid := "u1" |}
    (JObj [("text", JStr "Hello"); ("voiceId", JStr "v1")])
    _ eq_refl eq_refl eq_refl _ eq_refl)); discriminate.
Defined.

(** X12. The success path of ingestPoster: for an admin's request with title,
    filename and bytes, when the filename and the title have a string form,
    the bytes make a byte array, and the upload and the insert both answer
    without error, that byte array is uploaded to
    uploads/<posterId>/<filename>, the poster row is inserted under the same
    fresh posterId, and the answer is 200 with that posterId and status
    "queued". *)
Theorem ingestPoster_success
    (env : Env) (req : Request) (logs : list RequestLogEntry) (user : User) (o : Json)
    (name shown : string) (data : list Z) :
  method req <> "OPTIONS" ->
  subject ingestPoster env req = Some user ->
  user_roles_admin env (uid user) = Some tt ->
  json req = Normal o -> o <> JNull ->
  truthy (get o "title") && truthy (get o "filename") && truthy (get o "bytes") = true ->
  IngestPoster.show env (get o "filename") = Normal name ->
  IngestPoster.show env (get o "title") = Normal shown ->
  IngestPoster.Uint8Array_new env (get o "bytes") = Normal data ->
  let path := "uploads/" +:+ randomUUID env +:+ "/" +:+ name in
  storage_upload env path data = Normal None ->
  posters_insert env (randomUUID env) = Normal None ->
  let out := IngestPoster.handler env req (fresh logs) in
  fst out
    = Normal (json_response 200
                (JObj [("posterId", JStr (randomUUID env));
                       ("status", JStr "queued");
                       ("message", JStr "Poster uploaded. Tiling will be processed by worker.")]))
  /\ upstream_calls (effects (snd out))
     = [EvStorageUpload path; EvPostersInsert (randomUUID env)].
Proof.
  intros Hm Hsub Hrole Hjson Hnn Hok Hname Hshown Hdata path Hup Hins. subst path. cbn zeta.
  assert (Hif : negb (truthy (get o "title")) || negb (truthy (get o "filename"))
                || negb (truthy (get o "bytes")) = false).
  { destruct (truthy (get o "title")), (truthy (get o "filename")),
      (truthy (get o "bytes")); cbn in *; congruence. }
  admin_subject Hm Hsub Hrole Hjson Hnn. rewrite Hif.
  cbn [fst snd request_logs effects app]. rewrite Hname.
  cbn [fst snd request_logs effects app]. rewrite Hshown.
  cbn [fst snd request_logs effects app]. rewrite Hdata.
  cbn [fst snd request_logs effects app]. rewrite Hup.
  cbn [fst snd request_logs effects app]. rewrite Hins. split; reflexivity.
Qed.

Lemma ingestPoster_success_witness :
  upstream_calls (effects (snd (IngestPoster.handler sample_env poster_request
                                  (fresh sample_logs))))
  = [ EvStorageUpload "uploads/00000000-0000-4000-8000-000000000000/map.jpg";
      EvPostersInsert "00000000-0000-4000-8000-000000000000" ].
Proof.
  refine (proj2 (ingestPoster_success sample_env poster_request sample_logs
    {| uid := "u1" |}
    (JObj [("title", JStr "Map"); ("filename", JStr "map.jpg");
           ("bytes", JArr [255; 216; 255])])
    "map.jpg" "Map" [255; 216; 255]
    _ eq_refl eq_refl eq_refl _ eq_refl eq_refl eq_refl eq_refl eq_refl eq_refl)); discriminate.
Defined.

(** X13. ingestPoster does not undo an upload: when the upload has answered
    without error and the insert into posters fails (an error reply or an
    exception), the handler answers 500 and the uploaded object stays, with no
    poster row pointing at it; when the upload itself fails, no insert is
    attempted; and when the bytes do not make a byte array (a negative
    length, say), the handler answers 500 without any upload. *)
Theorem ingestPoster_partial_failure
    (env : Env) (req : Request) (logs : list RequestLogEntry) (user : User) (o : Json)
    (name shown : string) :
  method req <> "OPTIONS" ->
  subject ingestPoster env req = Some user ->
  user_roles_admin env (uid user) = Some tt ->
  json req = Normal o -> o <> JNull ->
  truthy (get o "title") && truthy (get o "filename") && truthy (get o "bytes") = true ->
  IngestPoster.show env (get o "filename") = Normal name ->
  IngestPoster.show env (get o "title") = Normal shown ->
  let path := "uploads/" +:+ randomUUID env +:+ "/" +:+ name in
  let out := IngestPoster.handler env req (fresh logs) in
  (forall data,
     IngestPoster.Uint8Array_new env (get o "bytes") = Normal data ->
     storage_upload env path data = Normal None ->
     posters_insert env (randomUUID env) <> Normal None ->
     (exists resp, fst out = Normal resp /\ status resp = 500)
     /\ upstream_calls (effects (snd out))
        = [EvStorageUpload path; EvPostersInsert (randomUUID env)])
  /\ (forall data,
       IngestPoster.Uint8Array_new env (get o "bytes") = Normal data ->
       storage_upload env path data <> Normal None ->
       (exists resp, fst out = Normal resp /\ status resp = 500)
       /\ upstream_calls (effects (snd out)) = [EvStorageUpload path])
  /\ (forall t,
       IngestPoster.Uint8Array_new env (get o "bytes") = Abrupt t ->
       (exists resp, fst out = Normal resp /\ status resp = 500)
       /\ upstream_calls (effects (snd out)) = []).
Proof.
  intros Hm Hsub Hrole Hjson Hnn Hok Hname Hshown path. subst path. cbn zeta.
  assert (Hif : negb (truthy (get o "title")) || negb (truthy (get o "filename"))
                || negb (truthy (get o "bytes")) = false).
  { destruct (truthy (get o "title")), (truthy (get o "filename")),
      (truthy (get o "bytes")); cbn in *; congruence. }
  admin_subject Hm Hsub Hrole Hjson Hnn. rewrite Hif.
  cbn [fst snd request_logs effects app]. rewrite Hname.
  cbn [fst snd request_logs effects app]. rewrite Hshown.
  cbn [fst snd request_logs effects app]. split; [| split].
  - intros data Hdata Hup Hins. rewrite Hdata. cbn [fst snd request_logs effects app].
    rewrite Hup. cbn [fst snd request_logs effects app].
    destruct (posters_insert env (randomUUID env)) as [[e |] | t];
      [| congruence |]; cbn; (split; [eexists; split; reflexivity | reflexivity]).
  - intros data Hdata Hup. rewrite Hdata. cbn [fst snd request_logs effects app].
    destruct (storage_upload env _ data) as [[e |] | t];
      [| congruence |]; cbn; (split; [eexists; split; reflexivity | reflexivity]).
  - intros t Hdata. rewrite Hdata. cbn.
    split; [eexists; split; reflexivity | reflexivity].
Qed.

Lemma ingestPoster_partial_failure_witness :
  upstream_calls (effects (snd (IngestPoster.handler insert_failing_env poster_request
                                  (fresh sample_logs))))
  = [ EvStorageUpload "uploads/00000000-0000-4000-8000-000000000000/map.jpg";
      EvPostersInsert "00000000-0000-4000-8000-000000000000" ].
Proof.
  refine (proj2 (proj1 (ingestPoster_partial_failure insert_failing_env poster_request
    sample_logs {| uid := "u1" |}
    (JObj [("title", JStr "Map"); ("filename", JStr "map.jpg");
           ("bytes", JArr [255; 216; 255])])
    "map.jpg" "Map"
    _ eq_refl eq_refl eq_refl _ eq_refl eq_refl eq_refl) [255; 216; 255] eq_refl eq_refl _));
    discriminate.
Defined.

End EdgeHandlers.

(** ** Downscaling *)

Section Downscale.
Import TextRemovalTool.

Lemma Math_round_div_nearest n d :
  0 < d -> nearest_integer (Math_round_div n d) n d.
Proof.
  intros Hd. unfold nearest_integer, Math_round_div.
  pose proof (Z.div_mod (2 * n + d) (2 * d) ltac:(lia)) as Hdm.
  pose proof (Z.mod_pos_bound (2 * n + d) (2 * d) ltac:(lia)) as Hb.
  nia.
Qed.

Lemma nearest_integer_unique k k' n d :
  0 < d -> nearest_integer k n d -> nearest_integer k' n d -> k = k'.
Proof. unfold nearest_integer. intros Hd H1 H2. nia. Qed.

(** C9. The downscaling step of the text-removal tool: when the width or the
    height exceeds the cap of 2560, the longest side becomes exactly 2560 and
    the other side becomes round (other * 2560 / longest), which does not exceed
    2560; an image within the cap keeps its dimensions; 4000 x 2000 becomes
    2560 x 1280. *)
Theorem resizeImageIfNeeded_caps_longest_side (w h : Z) :
  (w <= 2560 /\ h <= 2560 -> resizeImageIfNeeded w h = (w, h))
  /\ (2560 < w \/ 2560 < h ->
      exists other,
        nearest_integer other (Z.min w h * 2560) (Z.max w h)
        /\ other <= 2560
        /\ resizeImageIfNeeded w h = (if h <? w then (2560, other) else (other, 2560)))
  /\ resizeImageIfNeeded 4000 2000 = (2560, 1280).
Proof.
  unfold resizeImageIfNeeded, MAX_IMAGE_DIMENSION.
  split; [| split; [| reflexivity]].
  - intros [Hw Hh].
    destruct (Z.gtb_spec w 2560), (Z.gtb_spec h 2560); try lia. reflexivity.
  - intros Hbig.
    replace ((w >? 2560) || (h >? 2560)) with true
      by (destruct (Z.gtb_spec w 2560), (Z.gtb_spec h 2560); try reflexivity; lia).
    destruct (Z.gtb_spec w h) as [Hwh | Hwh].
    + exists (Math_round_div (h * 2560) w).
      replace (h <? w) with true by (symmetry; apply Z.ltb_lt; lia).
      rewrite Z.min_r, Z.max_l by lia.
      pose proof (Math_round_div_nearest (h * 2560) w ltac:(lia)) as Hn.
      split; [exact Hn |]. split; [| reflexivity].
      unfold nearest_integer in Hn. nia.
    + exists (Math_round_div (w * 2560) h).
      replace (h <? w) with false by (symmetry; apply Z.ltb_ge; lia).
      rewrite Z.min_l, Z.max_r by lia.
      pose proof (Math_round_div_nearest (w * 2560) h ltac:(lia)) as Hn.
      split; [exact Hn |]. split; [| reflexivity].
      unfold nearest_integer in Hn. nia.
Qed.

Lemma resizeImageIfNeeded_caps_longest_side_witness :
  resizeImageIfNeeded 1920 1080 = (1920, 1080).
Proof.
  apply (proj1 (resizeImageIfNeeded_caps_longest_side 1920 1080)). lia.
Defined.

End Downscale.

(** ** Stacking order of overlays *)

Section Stacking.
Import OverlayCreator.

(** When the highest stacking order of the base map is a number other than 0,
    the new overlay gets the next one. *)
Lemma nextZIndex_after_nonzero ov b z :
  maxZData ov b = Some {| base_map_id := b; z_index := Some z |} ->
  z <> 0 ->
  nextZIndex (maxZData ov b) = z + 1.
Proof.
  intros -> Hz. unfold nextZIndex.
  destruct (Z.eqb_spec z 0); [contradiction | reflexivity].
Qed.

(** C10. Saving a second overlay on a base map whose only overlay has stacking
    order 0 gives it stacking order 0 again: [0 || -1] is [-1], so the new
    z_index is not greater than the existing one and two overlays share it. *)
Theorem handleSave_repeats_stacking_order_zero :
  handleSave healthy [] "map-1" = [ {| base_map_id := "map-1"; z_index := Some 0 |} ]
  /\ handleSave healthy (handleSave healthy [] "map-1") "map-1"
     = [ {| base_map_id := "map-1"; z_index := Some 0 |};
         {| base_map_id := "map-1"; z_index := Some 0 |} ].
Proof. split; reflexivity. Qed.

End Stacking.

(** ** The alpha channel written by [removeBackground] *)

Section AlphaChannel.
Import ImageEditor.

Lemma alpha_loop_length mask : forall k d, length (alpha_loop k mask d) = length d.
Proof.
  induction mask as [| m mask IH]; intros k d; cbn; [reflexivity |].
  rewrite IH. unfold put_alpha. apply length_insert.
Qed.

(** The loop started at pixel [k] leaves alone every byte that is not the
    alpha byte of a pixel from [k] on. *)
Lemma alpha_loop_untouched mask :
  forall k d j,
    (forall i, (k <= i < k + length mask)%nat -> j <> (i * 4 + 3)%nat) ->
    alpha_loop k mask d !! j = d !! j.
Proof.
  induction mask as [| m mask IH]; intros k d j Hj; cbn; [reflexivity |].
  rewrite IH.
  - unfold put_alpha. apply list_lookup_insert_ne.
    intros Heq. apply (Hj k); [cbn; lia | congruence].
  - intros i Hi. apply Hj. cbn. lia.
Qed.

Lemma alpha_loop_written mask :
  forall k d i m,
    mask !! i = Some m ->
    ((k + i) * 4 + 3 < length d)%nat ->
    alpha_loop k mask d !! ((k + i) * 4 + 3)%nat = Some (ToUint8Clamp (alpha m)).
Proof.
  induction mask as [| m0 mask IH]; intros k d i m Hm Hlen; [discriminate |].
  destruct i as [| i]; cbn in Hm |- *.
  - injection Hm as ->. rewrite Nat.add_0_r in *.
    rewrite alpha_loop_untouched by (intros i Hi; lia).
    unfold put_alpha. now apply list_lookup_insert_eq.
  - replace (k + S i)%nat with (S k + i)%nat in * by lia.
    apply IH; [exact Hm |]. unfold put_alpha. now rewrite length_insert.
Qed.

(** C8. For every pixel [i] of the mask, the alpha byte of that pixel receives
    alpha = Math.round ((1 - maskValue) * 255), stored through the clamped byte
    array (so it is that number whenever it is a byte), while the colour bytes
    stay as they were; maskValue 0 gives 255, maskValue 1 gives 0 and
    maskValue 0.5 gives 128. *)
Theorem removeBackground_alpha_channel
    (mask : list float) (d : list Z) (i : nat) (maskValue : float) :
  mask !! i = Some maskValue ->
  (i * 4 + 3 < length d)%nat ->
  removeBackground mask d !! (i * 4 + 3)%nat = Some (ToUint8Clamp (alpha maskValue))
  /\ (forall a, alpha maskValue = RInt a -> 0 <= a <= 255 ->
                removeBackground mask d !! (i * 4 + 3)%nat = Some a)
  /\ (forall j, (j mod 4 <> 3)%nat -> removeBackground mask d !! j = d !! j)
  /\ alpha 0%float = RInt 255
  /\ alpha 1%float = RInt 0
  /\ alpha 0.5%float = RInt 128.
Proof.
  intros Hm Hlen.
  assert (Hw : removeBackground mask d !! (i * 4 + 3)%nat = Some (ToUint8Clamp (alpha maskValue))).
  { unfold removeBackground. apply (alpha_loop_written mask 0 d i maskValue Hm). exact Hlen. }
  split; [exact Hw |]. split; [| split].
  - intros a Ha Hbyte. rewrite Hw, Ha. cbn. unfold clamp8. f_equal. lia.
  - intros j Hj. unfold removeBackground. apply alpha_loop_untouched.
    intros k _ ->. apply Hj.
    replace (k * 4 + 3)%nat with (3 + k * 4)%nat by lia.
    now rewrite Nat.Div0.mod_add.
  - repeat split; vm_compute; reflexivity.
Qed.

Lemma removeBackground_alpha_channel_witness :
  removeBackground [0%float; 0.5%float; 1%float] [10; 20; 30; 40; 50; 60; 70; 80; 90; 100; 110; 120]
    !! 7%nat = Some 128.
Proof.
  exact (proj1 (proj2 (removeBackground_alpha_channel
           [0%float; 0.5%float; 1%float]
           [10; 20; 30; 40; 50; 60; 70; 80; 90; 100; 110; 120] 1 0.5%float
           eq_refl ltac:(cbn; lia)))
         128 ltac:(vm_compute; reflexivity) ltac:(lia)).
Defined.

End AlphaChannel.

(** ** Inpainting *)

Section Folds.
Context {A B C : Type}.

Lemma fold_left_map (g : A -> C -> A) (f : B -> C) (l : list B) :
  forall a, fold_left g (map f l) a = fold_left (fun acc b => g acc (f b)) l a.
Proof. induction l as [| b l IH]; intros a; cbn; [reflexivity | apply IH]. Qed.

Lemma fold_left_nested {D : Type} (g : A -> C -> A) (f : B -> D -> C)
    (xs : list B) (ys : list D) :
  forall a,
    fold_left (fun acc v => fold_left (fun acc u => g acc (f u v)) xs acc) ys a
    = fold_left g (flat_map (fun v => map (fun u => f u v) xs) ys) a.
Proof.
  induction ys as [| v ys IH]; intros a; cbn; [reflexivity |].
  rewrite fold_left_app, fold_left_map. apply IH.
Qed.

End Folds.

Section Arrays.

Lemma elem_of_range lo len z : z ∈ range lo len <-> lo <= z < lo + len.
Proof.
  unfold range. rewrite list_elem_of_fmap. split.
  - intros (k & -> & Hk). apply elem_of_seq in Hk. lia.
  - intros Hz. exists (Z.to_nat (z - lo)). split; [lia |].
    apply elem_of_seq. lia.
Qed.

Lemma store_length d i v : length (store d i v) = length d.
Proof. unfold store. destruct (i <? 0); [reflexivity | apply length_insert]. Qed.

Lemma load_store_eq d i v :
  0 <= i < Z.of_nat (length d) -> load (store d i v) i = clamp8 v.
Proof.
  intros Hi. unfold load, store.
  destruct (Z.ltb_spec i 0); [lia |].
  rewrite list_lookup_insert_eq by lia. reflexivity.
Qed.

Lemma load_store_ne d i j v : i <> j -> load (store d i v) j = load d j.
Proof.
  intros Hij. unfold load, store.
  destruct (Z.ltb_spec i 0); [reflexivity |].
  destruct (Z.ltb_spec j 0); [reflexivity |].
  rewrite list_lookup_insert_ne by lia. reflexivity.
Qed.

Lemma clamp8_byte v : 0 <= clamp8 v <= 255.
Proof. unfold clamp8. lia. Qed.

Lemma store_bytes d i v :
  Forall (fun b => 0 <= b <= 255) d -> Forall (fun b => 0 <= b <= 255) (store d i v).
Proof.
  intros Hd. unfold store. destruct (i <? 0); [exact Hd |].
  apply Forall_insert; [exact Hd | apply clamp8_byte].
Qed.

Lemma load_byte d i : Forall (fun b => 0 <= b <= 255) d -> 0 <= load d i <= 255.
Proof.
  intros Hd. unfold load. destruct (i <? 0); [lia |].
  destruct (d !! Z.to_nat i) as [b |] eqn:Hb; cbn; [| lia].
  exact (proj1 (Forall_lookup _ d) Hd _ _ Hb).
Qed.

Lemma Math_round_div_byte n k :
  0 < k -> 0 <= n <= 255 * k -> 0 <= Math_round_div n k <= 255.
Proof.
  intros Hk Hn. unfold Math_round_div. split.
  - apply Z.div_pos; lia.
  - apply Z.lt_succ_r. apply Z.div_lt_upper_bound; lia.
Qed.

Lemma pixel_index_inj W px py qx qy :
  0 <= px < W -> 0 <= qx < W -> py * W + px = qy * W + qx -> px = qx /\ py = qy.
Proof.
  intros Hp Hq Heq.
  assert (py = qy) by nia. subst. lia.
Qed.

End Arrays.

Section Sampling.
Import TextRemovalTool.
Variables (W H : Z) (r : TextRegion).

Lemma fold_left_ext {A B : Type} (f g : A -> B -> A) (l : list B) :
  (forall a b, f a b = g a b) -> forall a, fold_left f l a = fold_left g l a.
Proof.
  intros Hfg. induction l as [| b l IH]; intros a; cbn; [reflexivity |].
  rewrite Hfg. apply IH.
Qed.

Lemma sample_usable d px py acc dy dx :
  sample d W H (x r) (y r) (width r) (height r) px py acc dy dx
  = if usable (image W H d) r (px + dx, py + dy)
    then add_pixel W d acc (px + dx, py + dy)
    else acc.
Proof.
  unfold sample, usable, add_pixel. cbn.
  destruct (in_region _ _ _ _ _ _); cbn; [reflexivity |].
  destruct (out_of_bounds _ _ _ _); reflexivity.
Qed.

Lemma fold_usable d (l : list (Z * Z)) :
  forall acc,
    fold_left (fun acc s => if usable (image W H d) r s then add_pixel W d acc s else acc) l acc
    = fold_left (add_pixel W d) (filter (fun s => Is_true (usable (image W H d) r s)) l) acc.
Proof.
  induction l as [| s l IH]; intros acc; [reflexivity |].
  cbn [fold_left]. destruct (usable (image W H d) r s) eqn:Hu.
  - rewrite filter_cons_True by (now rewrite Hu). cbn [fold_left]. apply IH.
  - rewrite filter_cons_False by (now rewrite Hu). apply IH.
Qed.

Lemma fold_add_pixel d (l : list (Z * Z)) :
  forall acc,
    fold_left (add_pixel W d) l acc
    = {| sum_r := sum_r acc + total (image W H d) 0 l;
         sum_g := sum_g acc + total (image W H d) 1 l;
         sum_b := sum_b acc + total (image W H d) 2 l;
         count := count acc + Z.of_nat (length l) |}.
Proof.
  induction l as [| s l IH]; intros acc.
  - cbn. destruct acc. cbn. f_equal; lia.
  - cbn [fold_left]. rewrite IH. unfold add_pixel, total, channel. cbn.
    rewrite Z.add_0_r. f_equal; lia.
Qed.

(** The running sums of the two sampling loops are the totals over the usable
    pixels of the square, and their number. *)
Lemma surroundings_total d px py :
  surroundings d W H (x r) (y r) (width r) (height r) px py
  = let l := neighbours (image W H d) r px py in
    {| sum_r := total (image W H d) 0 l;
       sum_g := total (image W H d) 1 l;
       sum_b := total (image W H d) 2 l;
       count := Z.of_nat (length l) |}.
Proof.
  unfold surroundings.
  rewrite (fold_left_ext _
             (fun acc dy =>
                fold_left
                  (fun acc dx =>
                     (fun acc s => if usable (image W H d) r s
                                   then add_pixel W d acc s else acc)
                       acc ((fun dx dy => (px + dx, py + dy)) dx dy))
                  (range (- margin) (2 * margin + 1)) acc)).
  2: { intros a dy. apply fold_left_ext. intros a' dx. apply sample_usable. }
  rewrite (fold_left_nested
             (fun acc s => if usable (image W H d) r s then add_pixel W d acc s else acc)
             (fun dx dy => (px + dx, py + dy))).
  rewrite fold_usable, fold_add_pixel. cbn. reflexivity.
Qed.

Lemma usable_spec d s :
  Is_true (usable (image W H d) r s)
  <-> ~ in_box r (fst s) (snd s) /\ (0 <= fst s < W /\ 0 <= snd s < H).
Proof.
  unfold usable, in_region, out_of_bounds, in_box. cbn.
  rewrite andb_True, !negb_True, !andb_True, !orb_True, !Is_true_true.
  rewrite !Z.geb_le, !Z.ltb_lt. lia.
Qed.

End Sampling.

Section Filling.
Import TextRemovalTool.
Variables (W H : Z) (r : TextRegion) (d0 : list Z).
Hypothesis Hsize : Z.of_nat (length d0) = 4 * W * H.
Hypothesis Hbytes : Forall (fun b => 0 <= b <= 255) d0.

Lemma total_agree d c (l : list (Z * Z)) :
  (forall s, s ∈ l -> channel (image W H d) (fst s) (snd s) c
                      = channel (image W H d0) (fst s) (snd s) c) ->
  total (image W H d) c l = total (image W H d0) c l.
Proof.
  unfold total. induction l as [| s l IH]; intros Hl; cbn [foldr]; [reflexivity |].
  rewrite Hl by apply list_elem_of_here.
  rewrite IH; [reflexivity |]. intros s' Hs'. apply Hl. now apply list_elem_of_further.
Qed.

Lemma total_bytes c (l : list (Z * Z)) :
  0 <= total (image W H d0) c l <= 255 * Z.of_nat (length l).
Proof.
  induction l as [| s l IH]; cbn [total foldr length]; [lia |].
  pose proof (load_byte d0 ((snd s * W + fst s) * 4 + c) Hbytes) as Hb.
  unfold total, channel in *. cbn [data img_width image] in *. lia.
Qed.

Lemma average_byte c (l : list (Z * Z)) :
  l <> [] -> clamp8 (average (image W H d0) c l) = average (image W H d0) c l.
Proof.
  intros Hl. unfold average.
  assert (0 < Z.of_nat (length l)) by (destruct l; [congruence | cbn; lia]).
  pose proof (Math_round_div_byte _ _ H0 (total_bytes c l)).
  unfold clamp8. lia.
Qed.

Lemma fill_pixel_step done d px py :
  in_box r px py ->
  Forall (fun q => in_box r (fst q) (snd q)) done ->
  fill_invariant W H r d0 done d ->
  fill_invariant W H r d0 ((px, py) :: done)
    (fill_pixel W H (x r) (y r) (width r) (height r) d py px).
Proof.
  intros Hp Hdone (Hlen & Hfin & Hold).
  assert (Hmem : forall qx qy, (qx, qy) <> (px, py) ->
                   ((qx, qy) ∈ (px, py) :: done <-> (qx, qy) ∈ done)).
  { intros qx qy Hne. rewrite elem_of_cons. tauto. }
  assert (Hnone : neighbours (image W H d0) r px py = [] ->
            forall c, 0 <= px < W -> 0 <= py < H -> 0 <= c < 4 ->
              channel (image W H d) px py c = expected (image W H d0) r px py c).
  { intros HN c Hx Hy Hc.
    destruct (decide ((px, py) ∈ done)) as [Hin | Hin].
    - now apply Hfin.
    - rewrite Hold by assumption. unfold expected. now rewrite HN. }
  unfold fill_pixel.
  destruct (out_of_bounds W H px py) eqn:Hoob.
  { (* the pixel is outside the image: nothing is written *)
    assert (Hout : ~ (0 <= px < W /\ 0 <= py < H)).
    { unfold out_of_bounds in Hoob. rewrite !orb_true_iff, !Z.ltb_lt, !Z.geb_le in Hoob. lia. }
    split; [exact Hlen |]. split; intros qx qy c Hx Hy Hc Hq.
    - apply Hfin; try assumption. apply Hmem; [| exact Hq]. intros [= -> ->]. tauto.
    - apply Hold; try assumption. rewrite <- Hmem; [exact Hq |]. intros [= -> ->]. tauto. }
  assert (Hin : 0 <= px < W /\ 0 <= py < H).
  { unfold out_of_bounds in Hoob. rewrite !orb_false_iff, !Z.ltb_ge, !Z.geb_leb, !Z.leb_gt in Hoob. lia. }
  rewrite surroundings_total. cbn [count sum_r sum_g sum_b].
  change (neighbours (image W H d) r px py) with (neighbours (image W H d0) r px py).
  set (N := neighbours (image W H d0) r px py).
  assert (Htot : forall c, 0 <= c < 4 -> total (image W H d) c N = total (image W H d0) c N).
  { intros c Hc. apply total_agree. intros s Hs.
    apply list_elem_of_filter in Hs as [Hu _]. apply usable_spec in Hu as [Hbox Hs].
    destruct s as [sx sy]. cbn in *. apply Hold; try tauto.
    intros Hsd. apply Hbox.
    exact (proj1 (Forall_forall _ done) Hdone (sx, sy) Hsd). }
  destruct (Z.gtb_spec (Z.of_nat (length N)) 0) as [Hcount | Hcount].
  2: { (* no usable pixel around: nothing is written *)
    assert (HN : N = []) by (destruct N; [reflexivity | cbn in Hcount; lia]).
    split; [exact Hlen |]. split; intros qx qy c Hx Hy Hc Hq.
    - destruct (decide ((qx, qy) = (px, py))) as [[= -> ->] | Hne].
      + now apply Hnone.
      + apply Hfin; try assumption. now apply Hmem.
    - apply Hold; try assumption. intros Hq'. apply Hq. now apply list_elem_of_further. }
  assert (HN : N <> []) by (intros HN; rewrite HN in Hcount; cbn in Hcount; lia).
  rewrite !Htot by lia.
  set (idx := (py * W + px) * 4).
  assert (Hidx : 0 <= idx /\ idx + 3 < Z.of_nat (length d)).
  { rewrite Hlen, Hsize. subst idx. nia. }
  split; [now rewrite !store_length |].
  assert (Hother : forall qx qy c, 0 <= qx < W -> 0 <= qy < H -> 0 <= c < 4 ->
            (qx, qy) <> (px, py) ->
            channel (image W H
              (store (store (store (store d idx
                 (Math_round_div (total (image W H d0) 0 N) (Z.of_nat (length N))))
                 (idx + 1) (Math_round_div (total (image W H d0) 1 N) (Z.of_nat (length N))))
                 (idx + 2) (Math_round_div (total (image W H d0) 2 N) (Z.of_nat (length N))))
                 (idx + 3) 255)) qx qy c
            = channel (image W H d) qx qy c).
  { intros qx qy c Hx Hy Hc Hne. unfold channel. cbn [data img_width image].
    assert (qy * W + qx <> py * W + px).
    { intros Heq. apply Hne.
      destruct (pixel_index_inj W qx qy px py Hx (proj1 Hin) Heq) as [-> ->]. reflexivity. }
    subst idx. rewrite !load_store_ne by lia. reflexivity. }
  split; intros qx qy c Hx Hy Hc Hq.
  - destruct (decide ((qx, qy) = (px, py))) as [[= -> ->] | Hne].
    + unfold expected. fold N. destruct N as [| n N'] eqn:HeqN; [congruence |].
      rewrite <- HeqN in *. unfold channel. cbn [data img_width image]. fold idx.
      assert (Hcases : c = 0 \/ c = 1 \/ c = 2 \/ c = 3) by lia.
      destruct Hcases as [-> | [-> | [-> | ->]]]; cbn [Z.eqb].
      * rewrite Z.add_0_r, !load_store_ne, load_store_eq by lia.
        now apply average_byte.
      * rewrite !load_store_ne, load_store_eq by (rewrite ?store_length; lia).
        now apply average_byte.
      * rewrite !load_store_ne, load_store_eq by (rewrite ?store_length; lia).
        now apply average_byte.
      * rewrite load_store_eq by (rewrite ?store_length; lia). reflexivity.
    + rewrite Hother by assumption. apply Hfin; try assumption. now apply Hmem.
  - assert (Hne : (qx, qy) <> (px, py)).
    { intros [= -> ->]. apply Hq. apply list_elem_of_here. }
    rewrite Hother by assumption. apply Hold; try assumption.
    intros Hq'. apply Hq. now apply list_elem_of_further.
Qed.

End Filling.

Section Regions.
Import TextRemovalTool.

Lemma elem_of_flat_map {A B : Type} (f : A -> list B) (l : list A) (b : B) :
  b ∈ flat_map f l <-> exists a, a ∈ l /\ b ∈ f a.
Proof.
  rewrite list_elem_of_In, in_flat_map.
  split; intros (a & Ha & Hb); exists a; split; now apply list_elem_of_In.
Qed.

Lemma elem_of_rev {A : Type} (l : list A) (a : A) : a ∈ rev l <-> a ∈ l.
Proof. rewrite !list_elem_of_In. symmetry. apply in_rev. Qed.

Lemma elem_of_box_pixels r px py : (px, py) ∈ box_pixels r <-> in_box r px py.
Proof.
  unfold box_pixels, in_box. rewrite elem_of_flat_map. split.
  - intros (v & Hv & Hq). apply list_elem_of_fmap in Hq as (u & [= -> ->] & Hu).
    apply elem_of_range in Hv, Hu. lia.
  - intros [Hx Hy]. exists py. split; [now apply elem_of_range |].
    apply list_elem_of_fmap. exists px. split; [reflexivity | now apply elem_of_range].
Qed.

Lemma inpaintRegion_data img r :
  data (inpaintRegion img (x r) (y r) (width r) (height r))
  = fold_left
      (fun d q => fill_pixel (img_width img) (img_height img)
                    (x r) (y r) (width r) (height r) d (snd q) (fst q))
      (box_pixels r) (data img).
Proof.
  exact (fold_left_nested
           (fun d q => fill_pixel (img_width img) (img_height img)
                         (x r) (y r) (width r) (height r) d (snd q) (fst q))
           (fun px py => (px, py)) (range (x r) (width r)) (range (y r) (height r))
           (data img)).
Qed.

Lemma fill_fold W H r d0 :
  Z.of_nat (length d0) = 4 * W * H ->
  Forall (fun b => 0 <= b <= 255) d0 ->
  forall P done d,
    Forall (fun q => in_box r (fst q) (snd q)) P ->
    Forall (fun q => in_box r (fst q) (snd q)) done ->
    fill_invariant W H r d0 done d ->
    fill_invariant W H r d0 (rev P ++ done)
      (fold_left
         (fun d q => fill_pixel W H (x r) (y r) (width r) (height r) d (snd q) (fst q))
         P d).
Proof.
  intros Hsize Hbytes.
  induction P as [| [px py] P IH]; intros done d HP Hdone Hinv; [exact Hinv |].
  apply Forall_cons in HP as [Hp HP].
  cbn [fold_left rev fst snd]. rewrite <- app_assoc. cbn [app].
  apply IH; [exact HP | now constructor |].
  now apply fill_pixel_step.
Qed.

Lemma fill_pixel_keeps W H x y w h d py px :
  length (fill_pixel W H x y w h d py px) = length d
  /\ (Forall (fun b => 0 <= b <= 255) d ->
      Forall (fun b => 0 <= b <= 255) (fill_pixel W H x y w h d py px)).
Proof.
  unfold fill_pixel.
  destruct (out_of_bounds W H px py); [tauto |].
  destruct (count _ >? 0); [| tauto].
  rewrite !store_length. split; [reflexivity |].
  intros Hd. now repeat apply store_bytes.
Qed.

Lemma inpaintRegion_well_formed img r :
  well_formed img -> well_formed (inpaintRegion img (x r) (y r) (width r) (height r)).
Proof.
  intros (HW & HH & Hlen & Hb). unfold well_formed.
  rewrite inpaintRegion_data. cbn [img_width img_height inpaintRegion].
  split; [exact HW |]. split; [exact HH |].
  revert Hlen Hb. generalize (data img) as d.
  induction (box_pixels r) as [| q P IH]; intros d Hlen Hb; [tauto |].
  cbn [fold_left]. apply IH.
  - now rewrite (proj1 (fill_pixel_keeps _ _ _ _ _ _ _ _ _)).
  - now apply fill_pixel_keeps.
Qed.

Lemma handleRemoveText_well_formed rs :
  forall img, well_formed img ->
    well_formed (handleRemoveText img rs)
    /\ img_width (handleRemoveText img rs) = img_width img
    /\ img_height (handleRemoveText img rs) = img_height img.
Proof.
  unfold handleRemoveText.
  induction rs as [| r rs IH]; intros img Hwf; [tauto |].
  cbn [fold_left].
  destruct (IH _ (inpaintRegion_well_formed img r Hwf)) as (H1 & H2 & H3).
  split; [exact H1 |]. now rewrite H2, H3.
Qed.

(** One call of [inpaintRegion] on a well-formed image. *)
Lemma inpaintRegion_pixel img r px py c :
  well_formed img -> inside_image img px py -> 0 <= c < 4 ->
  channel (inpaintRegion img (x r) (y r) (width r) (height r)) px py c
  = if decide (in_box r px py) then expected img r px py c else channel img px py c.
Proof.
  intros (HW & HH & Hlen & Hb) [Hx Hy] Hc.
  assert (Hinv := fill_fold (img_width img) (img_height img) r (data img) Hlen Hb
                    (box_pixels r) [] (data img)).
  rewrite <- inpaintRegion_data, app_nil_r in Hinv.
  destruct Hinv as (_ & Hfin & Hold).
  - apply Forall_forall. intros [qx qy] Hq. now apply elem_of_box_pixels.
  - constructor.
  - split; [reflexivity |]. split; [| reflexivity].
    intros ? ? ? ? ? ? Hq. now apply elem_of_nil in Hq.
  - destruct img as [d W H]. cbn [img_width img_height data] in *.
    unfold image in *.
    change (channel (inpaintRegion {| data := d; img_width := W; img_height := H |}
                       (x r) (y r) (width r) (height r)) px py c)
      with (channel {| data := data (inpaintRegion {| data := d; img_width := W; img_height := H |}
                                       (x r) (y r) (width r) (height r));
                       img_width := W; img_height := H |} px py c).
    destruct (decide (in_box r px py)) as [Hbox | Hbox].
    + apply Hfin; try assumption. apply elem_of_rev. now apply elem_of_box_pixels.
    + apply Hold; try assumption. rewrite elem_of_rev. now rewrite elem_of_box_pixels.
Qed.

End Regions.

Section InpaintingResult.
Import TextRemovalTool.

Lemma NoDup_range lo len : NoDup (range lo len).
Proof.
  unfold range. apply NoDup_fmap_2_strong; [| apply NoDup_seq].
  intros a b _ _ Hab. lia.
Qed.

Lemma flat_map_bind {A B : Type} (f : A -> list B) (l : list A) :
  flat_map f l = l ≫= f.
Proof. induction l as [| a l IH]; [reflexivity |]. cbn. now rewrite IH. Qed.

Lemma NoDup_square px py : NoDup (square px py).
Proof.
  unfold square. rewrite flat_map_bind. apply NoDup_bind.
  - intros dy1 dy2 s _ _ H1 H2.
    apply list_elem_of_fmap in H1 as (dx1 & -> & _).
    apply list_elem_of_fmap in H2 as (dx2 & [= _ Hy] & _). lia.
  - intros dy _. apply NoDup_fmap_2_strong; [| apply NoDup_range].
    intros a b _ _ [= Hab]. lia.
  - apply NoDup_range.
Qed.

(** The pixels that are averaged: each pixel at distance at most 5 in both
    directions that is outside the region being filled and inside the image,
    once. *)
Lemma neighbours_spec img r px py :
  NoDup (neighbours img r px py)
  /\ forall sx sy,
       (sx, sy) ∈ neighbours img r px py
       <-> (px - 5 <= sx <= px + 5 /\ py - 5 <= sy <= py + 5)
           /\ ~ in_box r sx sy /\ inside_image img sx sy.
Proof.
  split; [apply NoDup_filter, NoDup_square |].
  intros sx sy. unfold neighbours. rewrite list_elem_of_filter.
  destruct img as [d W H]. rewrite (usable_spec W H r d (sx, sy)).
  unfold square, inside_image, margin. rewrite elem_of_flat_map. cbn.
  split.
  - intros (Hu & dy & Hdy & Hs).
    apply list_elem_of_fmap in Hs as (dx & [= -> ->] & Hdx).
    apply elem_of_range in Hdy, Hdx. split; [lia | exact Hu].
  - intros (Hnear & Hu). split; [exact Hu |].
    exists (sy - py). split; [apply elem_of_range; lia |].
    apply list_elem_of_fmap. exists (sx - px). split; [f_equal; lia |].
    apply elem_of_range. lia.
Qed.

(** C7, as stated, fails: a pixel of the box with no sampled pixel around it is
    left as it was (alpha included), and the pixels of other text regions are
    sampled like any other. *)
Lemma inpainting_not_as_claimed :
  (well_formed sample_pixel
   /\ in_box (box 0 0 1 1) 0 0
   /\ handleRemoveText sample_pixel [box 0 0 1 1] = sample_pixel
   /\ channel (handleRemoveText sample_pixel [box 0 0 1 1]) 0 0 3 = 40)
  /\ (well_formed sample_pair
      /\ in_box (box 1 0 1 1) 1 0
      /\ neighbours sample_pair (box 0 0 1 1) 0 0 = [(1, 0)]
      /\ data (handleRemoveText sample_pair [box 0 0 1 1; box 1 0 1 1])
         = [50; 60; 70; 255; 50; 60; 70; 255]).
Proof.
  unfold well_formed, in_box. cbn.
  repeat split; try lia; try reflexivity; repeat constructor; lia.
Qed.

(** C7 (amended). [handleRemoveText] fills the regions one after the other on
    one working image.  When region [r] is filled, every pixel of its box that
    lies in the image and has at least one pixel within distance 5 (in both
    directions) outside that same box and inside the image gets, channel by
    channel, the rounded mean of those pixels as the working image holds them,
    and alpha 255; every other pixel is left as it is. *)
Theorem handleRemoveText_fills_region
    (original : ImageData) (filled : list TextRegion) (r : TextRegion) (px py : Z) :
  well_formed original ->
  inside_image original px py ->
  let working := handleRemoveText original filled in
  let out := handleRemoveText original (filled ++ [r]) in
  let l := neighbours working r px py in
  (in_box r px py -> l <> [] ->
     channel out px py 0 = average working 0 l
     /\ channel out px py 1 = average working 1 l
     /\ channel out px py 2 = average working 2 l
     /\ channel out px py 3 = 255)
  /\ (~ in_box r px py \/ l = [] ->
      forall c, 0 <= c < 4 -> channel out px py c = channel working px py c).
Proof.
  intros Hwf Hin working out l.
  destruct (handleRemoveText_well_formed filled original Hwf) as (Hwf' & HW & HH).
  fold working in Hwf', HW, HH.
  assert (Hin' : inside_image working px py).
  { unfold inside_image in *. now rewrite HW, HH. }
  assert (Hout : out = inpaintRegion working (x r) (y r) (width r) (height r)).
  { unfold out, working, handleRemoveText. now rewrite fold_left_app. }
  assert (Hpix := fun c => inpaintRegion_pixel working r px py c Hwf' Hin').
  rewrite <- Hout in Hpix. unfold expected in Hpix. fold l in Hpix.
  split.
  - intros Hbox Hl.
    destruct l as [| s l'] eqn:Heq; [congruence |]. clear Hl.
    pose proof (Hpix 0 ltac:(lia)) as H0. pose proof (Hpix 1 ltac:(lia)) as H1.
    pose proof (Hpix 2 ltac:(lia)) as H2. pose proof (Hpix 3 ltac:(lia)) as H3.
    rewrite decide_True in H0, H1, H2, H3 by assumption.
    cbn [Z.eqb] in *. auto.
  - intros Hcase c Hc. rewrite (Hpix c Hc).
    destruct (decide (in_box r px py)) as [Hbox | Hbox]; [| reflexivity].
    destruct Hcase as [Hnot | ->]; [contradiction | reflexivity].
Qed.

Lemma handleRemoveText_fills_region_witness :
  channel (handleRemoveText sample_row [box 0 0 1 1]) 0 0 0 = 3
  /\ channel (handleRemoveText sample_row [box 0 0 1 1]) 0 0 1 = 5
  /\ channel (handleRemoveText sample_row [box 0 0 1 1]) 0 0 2 = 6
  /\ channel (handleRemoveText sample_row [box 0 0 1 1]) 0 0 3 = 255.
Proof.
  refine (proj1 (handleRemoveText_fills_region sample_row [] (box 0 0 1 1) 0 0 _ _) _ _).
  - unfold well_formed. cbn. repeat split; try lia. repeat constructor; lia.
  - unfold inside_image. cbn. lia.
  - unfold in_box. cbn. lia.
  - discriminate.
Defined.

End InpaintingResult.

(** ** More on the rate limiter: bounds, logging and retention *)

Section RateLimiterLog.
Import RateLimit.

Lemma RATE_LIMITS_entries E limit :
  assoc E RATE_LIMITS = Some limit -> 0 < requests limit /\ window limit = 60.
Proof.
  unfold RATE_LIMITS. cbn [assoc].
  repeat (destruct (String.eqb E _); [intros [= <-]; split; [reflexivity | reflexivity] |]).
  discriminate.
Qed.

(** X1. Unless the endpoint name is one inherited from [Object.prototype],
    checkRateLimit returns normally whatever the store does, leaves the log store
    as it is, answers a remaining count that is never negative, and answers
    allowed exactly when remaining is positive. *)
Theorem checkRateLimit_allowed_iff_remaining
    (env : Env) (S E : string) (world : World) :
  RATE_LIMITS_get E <> Inherited ->
  exists rc,
    fst (checkRateLimit env S E world) = Normal rc
    /\ request_logs (snd (checkRateLimit env S E world)) = request_logs world
    /\ 0 <= remaining rc
    /\ (allowed rc = true <-> 0 < remaining rc).
Proof.
  intros Hk. unfold checkRateLimit, RATE_LIMITS_get in *.
  destruct (assoc E RATE_LIMITS) as [limit |] eqn:Hown.
  - destruct (RATE_LIMITS_entries E limit Hown) as [Hpos _].
    unfold try_catch, mbind, M_bind, logs_select.
    destruct (logs_select_fault env) as [[e | t] |]; cbn.
    + exists fail_open. cbn. repeat split; lia.
    + exists fail_open. cbn. repeat split; lia.
    + eexists. split; [reflexivity |]. cbn. split; [reflexivity |]. split; [lia |].
      rewrite Z.ltb_lt. lia.
  - destruct (mem E Object_prototype_keys); [congruence |].
    exists fail_open. cbn. repeat split; lia.
Qed.

Lemma checkRateLimit_allowed_iff_remaining_witness :
  exists rc,
    fst (checkRateLimit store_down_env "u1" "historian-qa" (fresh sample_logs)) = Normal rc
    /\ request_logs (snd (checkRateLimit store_down_env "u1" "historian-qa" (fresh sample_logs)))
       = sample_logs
    /\ 0 <= remaining rc
    /\ (allowed rc = true <-> 0 < remaining rc).
Proof.
  apply (checkRateLimit_allowed_iff_remaining store_down_env "u1" "historian-qa"
           (fresh sample_logs)).
  discriminate.
Defined.

(** The table after a [logRequest] whose insert is answered. *)
Lemma logRequest_table env S E world :
  logs_insert_fault env = None ->
  request_logs (snd (logRequest env S E world))
  = filter (fun r => db_now env - 3600000 <= created_at r) (request_logs world)
    ++ [ {| user_id := S; endpoint := E; created_at := db_now env |} ].
Proof.
  intros Hup.
  unfold logRequest, try_catch, logs_insert, delete_old_request_logs. rewrite Hup. cbn.
  rewrite (list_filter_iff _ (fun r => db_now env - 3600000 <= created_at r)).
  - rewrite filter_app. f_equal.
    rewrite filter_cons_True by (cbn; lia). reflexivity.
  - intros r. rewrite negb_True, Is_true_true, Z.ltb_lt. lia.
Qed.

(** X2. With a working store, logRequest adds one row for the subject and the
    endpoint, stamped with the database's clock; after it the table holds no
    row older than one hour, and every earlier row that is not older than one
    hour is still there. *)
Theorem logRequest_appends_and_sweeps
    (env : Env) (S E : string) (world : World) :
  logs_insert_fault env = None ->
  let after := request_logs (snd (logRequest env S E world)) in
  let row := {| user_id := S; endpoint := E; created_at := db_now env |} in
  fst (logRequest env S E world) = Normal tt
  /\ after = filter (fun r => db_now env - 3600000 <= created_at r) (request_logs world) ++ [row]
  /\ Forall (fun r => db_now env - 3600000 <= created_at r) after.
Proof.
  intros Hup. cbn zeta.
  unfold logRequest, try_catch, logs_insert, delete_old_request_logs. rewrite Hup. cbn.
  assert (Hf : forall l : list RequestLogEntry,
             filter (fun r => Is_true (negb (created_at r <? db_now env - 3600000))) l
             = filter (fun r => db_now env - 3600000 <= created_at r) l).
  { intros l. apply list_filter_iff. intros r.
    rewrite negb_True, Is_true_true, Z.ltb_lt. lia. }
  rewrite Hf. split; [reflexivity |]. split.
  - rewrite filter_app. f_equal.
    rewrite filter_cons_True by (cbn; lia). reflexivity.
  - apply Forall_forall. intros r Hr. now apply list_elem_of_filter in Hr as [Hr _].
Qed.

Lemma logRequest_appends_and_sweeps_witness :
  request_logs (snd (logRequest sample_env "u9" "overlay-artist"
                       (fresh [ {| user_id := "u1"; endpoint := "historian-qa";
                                   created_at := - 2700000 |} ])))
  = [ {| user_id := "u9"; endpoint := "overlay-artist"; created_at := 1000000 |} ].
Proof.
  exact (proj1 (proj2 (logRequest_appends_and_sweeps sample_env "u9" "overlay-artist"
                         (fresh [ {| user_id := "u1"; endpoint := "historian-qa";
                                     created_at := - 2700000 |} ]) eq_refl))).
Defined.

(** X3. When the insert fails, logRequest still returns normally and the
    table is unchanged; a rejection is reported on the console by the name of
    the error only, an error reply of the store is not reported at all. *)
Theorem logRequest_swallows_failure
    (env : Env) (S E : string) (world : World) (fault : StoreFault) :
  logs_insert_fault env = Some fault ->
  fst (logRequest env S E world) = Normal tt
  /\ request_logs (snd (logRequest env S E world)) = request_logs world
  /\ effects (snd (logRequest env S E world))
     = effects world ++ EvLogsInsert S E ::
         match fault with
         | ReplyError _ => []
         | Rejects t =>
             [EvConsole ("[RATE-LIMIT] Failed to log request: " +:+ name_or_unknown t)]
         end.
Proof.
  intros Hf. unfold logRequest, try_catch, logs_insert, console, emit. rewrite Hf.
  destruct fault as [e | t]; cbn; repeat split.
  now rewrite <- app_assoc.
Qed.

Lemma logRequest_swallows_failure_witness :
  effects (snd (logRequest store_down_env "u1" "text-to-speech" (fresh sample_logs)))
  = [ EvLogsInsert "u1" "text-to-speech";
      EvConsole "[RATE-LIMIT] Failed to log request: TypeError" ].
Proof.
  exact (proj2 (proj2 (logRequest_swallows_failure store_down_env "u1" "text-to-speech"
                         (fresh sample_logs) unreachable eq_refl))).
Defined.

Lemma window_count_app rows more S E now w :
  window_count (rows ++ more) S E now w
  = window_count rows S E now w + window_count more S E now w.
Proof. unfold window_count. rewrite filter_app, length_app. lia. Qed.

Lemma window_count_recent rows S E now w cut :
  cut <= now - w * 1000 ->
  window_count (filter (fun r => cut <= created_at r) rows) S E now w
  = window_count rows S E now w.
Proof.
  intros Hcut. unfold window_count. f_equal. f_equal.
  induction rows as [| r rows IH]; [reflexivity |].
  destruct (decide (cut <= created_at r)) as [Hr | Hr].
  - rewrite (filter_cons_True (fun r => cut <= created_at r)) by assumption.
    destruct (decide (in_window S E now w r)) as [Hw | Hw].
    + rewrite !(filter_cons_True (in_window S E now w)) by assumption. now rewrite IH.
    + rewrite !(filter_cons_False (in_window S E now w)) by assumption. exact IH.
  - rewrite (filter_cons_False (fun r => cut <= created_at r)) by assumption.
    rewrite (filter_cons_False (in_window S E now w)); [exact IH |].
    unfold in_window. lia.
Qed.

(** X4. A logged request is counted by the next check.  The check reads the
    clock anew; when it is made while the row's time stamp is still inside its
    window (and the window is not longer than the retention hour), and both
    store calls are answered, it counts the rows of the earlier table that lie
    in its window and this row besides: one request more than the same check
    would count had the request not been logged. *)
Theorem logged_request_is_counted
    (env later : Env) (S E : string) (limit : RateLimitConfig) (world : World) :
  assoc E RATE_LIMITS = Some limit ->
  logs_insert_fault env = None ->
  logs_select_fault later = None ->
  date_now later - window limit * 1000 <= db_now env ->
  db_now env - 3600000 <= date_now later - window limit * 1000 ->
  let count := window_count (request_logs world) S E (date_now later) (window limit) in
  fst (checkRateLimit later S E (snd (logRequest env S E world)))
    = Normal {| allowed := count + 1 <? requests limit;
                remaining := Z.max 0 (requests limit - (count + 1)) |}
  /\ fst (checkRateLimit later S E world)
     = Normal {| allowed := count <? requests limit;
                 remaining := Z.max 0 (requests limit - count) |}.
Proof.
  intros Hown Hins Hsel Hnew Hkeep count.
  rewrite !(checkRateLimit_answered later S E limit _ Hown Hsel). cbn [fst].
  split; [| reflexivity].
  rewrite (logRequest_table env S E world Hins).
  rewrite window_count_app, (window_count_recent _ S E _ _ _ Hkeep).
  replace (window_count [_] S E (date_now later) (window limit)) with 1; [reflexivity |].
  unfold window_count.
  rewrite filter_cons_True by (unfold in_window; cbn; repeat split; try reflexivity; lia).
  reflexivity.
Qed.

Lemma logged_request_is_counted_witness :
  fst (checkRateLimit (with_clock 1030000 sample_env) "u1" "text-to-speech"
         (snd (logRequest sample_env "u1" "text-to-speech" (fresh sample_logs))))
  = Normal {| allowed := true; remaining := 18 |}
  /\ fst (checkRateLimit (with_clock 1030000 sample_env) "u1" "text-to-speech"
            (fresh sample_logs))
     = Normal {| allowed := true; remaining := 19 |}.
Proof.
  exact (logged_request_is_counted sample_env (with_clock 1030000 sample_env)
           "u1" "text-to-speech"
           {| requests := 20; window := 60 |} (fresh sample_logs)
           eq_refl eq_refl eq_refl ltac:(cbn; lia) ltac:(cbn; lia)).
Defined.

End RateLimiterLog.

(** ** More on downscaling *)

Section DownscaleBounds.

Lemma Math_round_div_bounds n d cap :
  0 < d -> 0 <= n -> n <= d -> 0 < cap ->
  0 <= Math_round_div (n * cap) d <= cap /\ (d > cap -> Math_round_div (n * cap) d <= n).
Proof.
  intros Hd Hn Hnd Hcap.
  pose proof (Math_round_div_nearest (n * cap) d Hd) as Hr.
  unfold nearest_integer in Hr. nia.
Qed.

Lemma resizeImageIfNeeded_small w h :
  w <= 2560 -> h <= 2560 -> TextRemovalTool.resizeImageIfNeeded w h = (w, h).
Proof.
  intros Hw Hh.
  unfold TextRemovalTool.resizeImageIfNeeded, TextRemovalTool.MAX_IMAGE_DIMENSION.
  destruct (Z.gtb_spec w 2560); [lia |]. destruct (Z.gtb_spec h 2560); [lia |].
  reflexivity.
Qed.

(** X14. For an image with non-negative dimensions, the downscaling step of
    the text-removal tool gives dimensions between 0 and 2560 that never exceed
    the original ones (it never scales up), and applying it to its own result
    changes nothing. *)
Theorem resizeImageIfNeeded_within_cap (w h : Z) :
  0 <= w -> 0 <= h ->
  let '(w', h') := TextRemovalTool.resizeImageIfNeeded w h in
  (0 <= w' <= w /\ 0 <= h' <= h)
  /\ ((2560 < w \/ 2560 < h) -> w' <= 2560 /\ h' <= 2560)
  /\ TextRemovalTool.resizeImageIfNeeded w' h' = (w', h').
Proof.
  intros Hw Hh.
  destruct (Z_le_gt_dec w 2560) as [Hwc | Hwc], (Z_le_gt_dec h 2560) as [Hhc | Hhc].
  { rewrite (resizeImageIfNeeded_small w h Hwc Hhc).
    split; [lia |]. split; [lia |]. now apply resizeImageIfNeeded_small. }
  all: unfold TextRemovalTool.resizeImageIfNeeded at 1;
    unfold TextRemovalTool.MAX_IMAGE_DIMENSION;
    replace ((w >? 2560) || (h >? 2560)) with true
      by (destruct (Z.gtb_spec w 2560), (Z.gtb_spec h 2560); try reflexivity; lia);
    destruct (Z.gtb_spec w h) as [Hwh | Hwh]; try (exfalso; lia).
  all: first
    [ destruct (Math_round_div_bounds h w 2560 ltac:(lia) Hh ltac:(lia) ltac:(lia)) as [Hb Hle]
    | destruct (Math_round_div_bounds w h 2560 ltac:(lia) Hw ltac:(lia) ltac:(lia)) as [Hb Hle] ].
  all: split; [lia |]; split; [lia |]; apply resizeImageIfNeeded_small; lia.
Qed.

Lemma resizeImageIfNeeded_within_cap_witness :
  TextRemovalTool.resizeImageIfNeeded 2560 1707 = (2560, 1707).
Proof.
  exact (proj2 (proj2 (resizeImageIfNeeded_within_cap 3000 2000 ltac:(lia) ltac:(lia)))).
Defined.

(** X15. A very elongated image loses its short side: when one side exceeds
    the cap and is more than 5120 times the other, the other side of the canvas
    becomes 0. *)
Theorem resizeImageIfNeeded_collapses_thin_image (long short : Z) :
  2560 < long -> 0 <= short -> 5120 * short < long ->
  TextRemovalTool.resizeImageIfNeeded long short = (2560, 0)
  /\ TextRemovalTool.resizeImageIfNeeded short long = (0, 2560).
Proof.
  intros Hl Hs Hthin.
  assert (Hz : Math_round_div (short * 2560) long = 0).
  { unfold Math_round_div. apply Z.div_small. lia. }
  unfold TextRemovalTool.resizeImageIfNeeded, TextRemovalTool.MAX_IMAGE_DIMENSION.
  rewrite Hz.
  destruct (Z.gtb_spec long 2560); [| lia].
  destruct (Z.gtb_spec short 2560); cbn [orb];
    destruct (Z.gtb_spec long short); try lia;
    destruct (Z.gtb_spec short long); try lia; split; reflexivity.
Qed.

Lemma resizeImageIfNeeded_collapses_thin_image_witness :
  TextRemovalTool.resizeImageIfNeeded 6000 1 = (2560, 0).
Proof.
  exact (proj1 (resizeImageIfNeeded_collapses_thin_image 6000 1
                  ltac:(lia) ltac:(lia) ltac:(lia))).
Defined.

(** X16. The image editor's own downscaling step (cap 1024) returns true
    exactly when it changes the dimensions; for non-negative dimensions the
    result never exceeds 1024 on a side that was scaled, and is the result of
    the text-removal tool's rule with 1024 in place of 2560. *)
Theorem ImageEditor_resize_reports_change (w h : Z) :
  0 <= w -> 0 <= h ->
  let '(resized, (w', h')) := ImageEditorCanvas.resizeImageIfNeeded w h in
  (resized = true <-> (w', h') <> (w, h))
  /\ (resized = true <-> 1024 < w \/ 1024 < h)
  /\ (resized = true -> 0 <= w' <= 1024 /\ 0 <= h' <= 1024)
  /\ (resized = true ->
      exists other, nearest_integer other (Z.min w h * 1024) (Z.max w h)
                    /\ (w', h') = if h <? w then (1024, other) else (other, 1024)).
Proof.
  intros Hw Hh.
  unfold ImageEditorCanvas.resizeImageIfNeeded, ImageEditorCanvas.MAX_IMAGE_DIMENSION.
  destruct (Z.gtb_spec w 1024) as [Hwc | Hwc]; destruct (Z.gtb_spec h 1024) as [Hhc | Hhc];
    cbn [orb].
  4: { repeat split; try congruence; try lia; intros; try discriminate; lia. }
  all: destruct (Z.gtb_spec w h) as [Hwh | Hwh]; try (exfalso; lia).
  all: first
    [ destruct (Math_round_div_bounds h w 1024 ltac:(lia) Hh ltac:(lia) ltac:(lia)) as [Hb Hle];
      pose proof (Math_round_div_nearest (h * 1024) w ltac:(lia)) as Hn;
      set (k := Math_round_div (h * 1024) w) in *;
      replace (h <? w) with true by (symmetry; apply Z.ltb_lt; lia);
      rewrite Z.min_r, Z.max_l by lia
    | destruct (Math_round_div_bounds w h 1024 ltac:(lia) Hw ltac:(lia) ltac:(lia)) as [Hb Hle];
      pose proof (Math_round_div_nearest (w * 1024) h ltac:(lia)) as Hn;
      set (k := Math_round_div (w * 1024) h) in *;
      replace (h <? w) with false by (symmetry; apply Z.ltb_ge; lia);
      rewrite Z.min_l, Z.max_r by lia ].
  all: split; [split; [intros _ [= ? ?]; lia | reflexivity] |].
  all: split; [split; [lia | reflexivity] |].
  all: split; [intros _; lia |].
  all: intros _; exists k; split; [exact Hn | reflexivity].
Qed.

Lemma ImageEditor_resize_reports_change_witness :
  (true = true <-> (1024, 256) <> (2048, 512))
  /\ (true = true <-> 1024 < 2048 \/ 1024 < 512)
  /\ (true = true -> 0 <= 1024 <= 1024 /\ 0 <= 256 <= 1024)
  /\ (true = true ->
      exists other, nearest_integer other (Z.min 2048 512 * 1024) (Z.max 2048 512)
                    /\ (1024, 256) = if 512 <? 2048 then (1024, other) else (other, 1024)).
Proof.
  exact (ImageEditor_resize_reports_change 2048 512 ltac:(lia) ltac:(lia)).
Defined.

End DownscaleBounds.

(** ** More on inpainting: what a fill keeps *)

Section InpaintingKeeps.
Import TextRemovalTool.

Lemma neighbours_dims a b r px py :
  img_width a = img_width b -> img_height a = img_height b ->
  neighbours a r px py = neighbours b r px py.
Proof. intros Hw Hh. unfold neighbours, usable. now rewrite Hw, Hh. Qed.

Lemma total_ext a b c (l : list (Z * Z)) :
  (forall s, s ∈ l -> channel a (fst s) (snd s) c = channel b (fst s) (snd s) c) ->
  total a c l = total b c l.
Proof.
  unfold total. induction l as [| s l IH]; intros Hl; cbn [foldr]; [reflexivity |].
  rewrite Hl by apply list_elem_of_here.
  rewrite IH; [reflexivity |]. intros s' Hs'. apply Hl. now apply list_elem_of_further.
Qed.

Lemma total_const img c v (l : list (Z * Z)) :
  (forall s, s ∈ l -> channel img (fst s) (snd s) c = v) ->
  total img c l = v * Z.of_nat (length l).
Proof.
  unfold total. induction l as [| s l IH]; intros Hl; cbn [foldr length]; [lia |].
  rewrite Hl by apply list_elem_of_here.
  rewrite IH; [lia |]. intros s' Hs'. apply Hl. now apply list_elem_of_further.
Qed.

Lemma Math_round_div_exact v n : 0 < n -> Math_round_div (v * n) n = v.
Proof.
  intros Hn. apply (nearest_integer_unique _ _ (v * n) n Hn).
  - now apply Math_round_div_nearest.
  - unfold nearest_integer. nia.
Qed.

Lemma fold_left_fixed {A B : Type} (f : A -> B -> A) (l : list B) (a : A) :
  (forall b, b ∈ l -> f a b = a) -> fold_left f l a = a.
Proof.
  induction l as [| b l IH]; intros Hl; cbn [fold_left]; [reflexivity |].
  rewrite Hl by apply list_elem_of_here.
  apply IH. intros b' Hb'. apply Hl. now apply list_elem_of_further.
Qed.

(** X17. Filling a region is idempotent: the pixels that are sampled lie
    outside the box and the fill does not change them, so filling the same
    region a second time leaves every channel of every pixel as the first fill
    left it. *)
Theorem inpaintRegion_idempotent
    (img : ImageData) (r : TextRegion) (px py c : Z) :
  well_formed img -> inside_image img px py -> 0 <= c < 4 ->
  let once := inpaintRegion img (x r) (y r) (width r) (height r) in
  channel (inpaintRegion once (x r) (y r) (width r) (height r)) px py c
  = channel once px py c.
Proof.
  intros Hwf Hin Hc once.
  assert (Hwf1 : well_formed once) by now apply inpaintRegion_well_formed.
  assert (Hin1 : inside_image once px py) by exact Hin.
  rewrite (inpaintRegion_pixel once r px py c Hwf1 Hin1 Hc).
  destruct (decide (in_box r px py)) as [Hbox | Hbox]; [| reflexivity].
  unfold expected.
  rewrite (neighbours_dims once img r px py eq_refl eq_refl).
  destruct (neighbours img r px py) as [| s0 l0] eqn:HN; [reflexivity |].
  unfold once at 2. rewrite (inpaintRegion_pixel img r px py c Hwf Hin Hc).
  rewrite decide_True by assumption. unfold expected. rewrite HN.
  destruct (c =? 3); [reflexivity |].
  unfold average. f_equal. apply total_ext. intros [sx sy] Hs. cbn [fst snd].
  rewrite <- HN in Hs. apply (proj2 (neighbours_spec img r px py)) in Hs as (_ & Hout & Hs).
  unfold once. rewrite (inpaintRegion_pixel img r sx sy c Hwf Hs Hc).
  now rewrite decide_False.
Qed.

Lemma inpaintRegion_idempotent_witness :
  channel (inpaintRegion (inpaintRegion sample_row 0 0 1 1) 0 0 1 1) 0 0 1
  = channel (inpaintRegion sample_row 0 0 1 1) 0 0 1.
Proof.
  refine (inpaintRegion_idempotent sample_row (box 0 0 1 1) 0 0 1 _ _ _).
  - unfold well_formed. cbn. repeat split; try lia. repeat constructor; lia.
  - unfold inside_image. cbn. lia.
  - lia.
Defined.

Lemma inpaintRegion_uniform img r cr cg cb :
  well_formed img -> uniform img cr cg cb ->
  uniform (inpaintRegion img (x r) (y r) (width r) (height r)) cr cg cb.
Proof.
  intros Hwf Hu px py Hin.
  assert (Hin0 : inside_image img px py) by exact Hin.
  assert (Hch : forall c v, 0 <= c < 3 ->
            (forall qx qy, inside_image img qx qy -> channel img qx qy c = v) ->
            channel (inpaintRegion img (x r) (y r) (width r) (height r)) px py c = v).
  { intros c v Hc Hv.
    rewrite (inpaintRegion_pixel img r px py c Hwf Hin0) by lia.
    destruct (decide (in_box r px py)) as [Hbox | Hbox]; [| now apply Hv].
    unfold expected.
    destruct (neighbours img r px py) as [| s0 l0] eqn:HN; [now apply Hv |].
    replace (c =? 3) with false by (symmetry; apply Z.eqb_neq; lia).
    unfold average. rewrite (total_const img c v).
    - apply Math_round_div_exact. cbn [length]. lia.
    - intros [sx sy] Hs. cbn [fst snd]. apply Hv.
      rewrite <- HN in Hs. now apply (proj2 (neighbours_spec img r px py)) in Hs. }
  repeat split; apply Hch; try lia; intros qx qy Hq; now destruct (Hu qx qy Hq) as (? & ? & ?).
Qed.

(** X18. On an image of one colour, removing text changes no colour: whatever
    the regions, every pixel of the result has the red, green and blue values
    it had. *)
Theorem handleRemoveText_keeps_uniform_colour
    (original : ImageData) (regions : list TextRegion) (cr cg cb : Z) :
  well_formed original -> uniform original cr cg cb ->
  uniform (handleRemoveText original regions) cr cg cb.
Proof.
  revert original. unfold handleRemoveText.
  induction regions as [| r regions IH]; intros original Hwf Hu; [exact Hu |].
  cbn [fold_left]. apply IH.
  - now apply inpaintRegion_well_formed.
  - now apply inpaintRegion_uniform.
Qed.

Lemma handleRemoveText_keeps_uniform_colour_witness :
  uniform (handleRemoveText sample_grey [box 0 0 2 1; box 1 0 5 5]) 7 8 9.
Proof.
  apply handleRemoveText_keeps_uniform_colour.
  - unfold well_formed. cbn. repeat split; try lia. repeat constructor; lia.
  - intros px py [Hx Hy]. cbn in Hx, Hy.
    assert (py = 0) as -> by lia.
    assert (px = 0 \/ px = 1 \/ px = 2) as [-> | [-> | ->]] by lia; repeat split.
Defined.

(** X19. A region that contains no pixel of the image (an empty box, or a box
    that lies outside the image) is filled without any effect: the image is
    returned as it was. *)
Theorem inpaintRegion_outside_image (img : ImageData) (r : TextRegion) :
  (forall px py, in_box r px py -> ~ inside_image img px py) ->
  inpaintRegion img (x r) (y r) (width r) (height r) = img.
Proof.
  intros Hout.
  assert (Hd : data (inpaintRegion img (x r) (y r) (width r) (height r)) = data img).
  { rewrite inpaintRegion_data. apply fold_left_fixed. intros [px py] Hq.
    apply elem_of_box_pixels in Hq. specialize (Hout px py Hq).
    unfold fill_pixel. cbn [fst snd].
    replace (out_of_bounds (img_width img) (img_height img) px py) with true; [reflexivity |].
    symmetry. unfold out_of_bounds, inside_image in *.
    rewrite !orb_true_iff, !Z.ltb_lt, !Z.geb_le. lia. }
  destruct img as [d W H]. unfold inpaintRegion in *. cbn [data img_width img_height] in *.
  now rewrite Hd.
Qed.

Lemma inpaintRegion_outside_image_witness :
  inpaintRegion sample_row 3 0 4 2 = sample_row
  /\ inpaintRegion sample_row 1 0 0 7 = sample_row.
Proof.
  split.
  - apply (inpaintRegion_outside_image sample_row (box 3 0 4 2)).
    unfold in_box, inside_image. cbn. lia.
  - apply (inpaintRegion_outside_image sample_row (box 1 0 0 7)).
    unfold in_box, inside_image. cbn. lia.
Defined.

(** X20. Removing text keeps the shape of the image: the width and height
    are unchanged, the byte array keeps its length of 4 * width * height, and
    every element stays a byte, whatever the regions are. *)
Theorem handleRemoveText_keeps_image_shape
    (original : ImageData) (regions : list TextRegion) :
  well_formed original ->
  well_formed (handleRemoveText original regions)
  /\ img_width (handleRemoveText original regions) = img_width original
  /\ img_height (handleRemoveText original regions) = img_height original
  /\ length (data (handleRemoveText original regions)) = length (data original).
Proof.
  intros Hwf.
  destruct (handleRemoveText_well_formed regions original Hwf) as (Hwf' & HW & HH).
  split; [exact Hwf' |]. split; [exact HW |]. split; [exact HH |].
  destruct Hwf as (_ & _ & Hlen & _). destruct Hwf' as (_ & _ & Hlen' & _).
  rewrite HW, HH in Hlen'. lia.
Qed.

Lemma handleRemoveText_keeps_image_shape_witness :
  length (data (handleRemoveText sample_row [box 0 0 2 1; box (-3) (-3) 9 9])) = 12%nat.
Proof.
  refine (proj2 (proj2 (proj2 (handleRemoveText_keeps_image_shape sample_row
            [box 0 0 2 1; box (-3) (-3) 9 9] _)))).
  unfold well_formed. cbn. repeat split; try lia. repeat constructor; lia.
Defined.

End InpaintingKeeps.

(** ** More on the alpha channel *)

Section AlphaChannelKeeps.
Import ImageEditor.

Lemma ToUint8Clamp_byte v : 0 <= ToUint8Clamp v <= 255.
Proof. destruct v; cbn; try lia. apply clamp8_byte. Qed.

Lemma alpha_loop_bytes mask :
  forall k d, Forall (fun v => 0 <= v <= 255) d ->
              Forall (fun v => 0 <= v <= 255) (alpha_loop k mask d).
Proof.
  induction mask as [| m mask IH]; intros k d Hd; cbn [alpha_loop]; [exact Hd |].
  apply IH. unfold put_alpha.
  destruct (decide (k * 4 + 3 < length d)%nat) as [Hlt | Hge].
  - apply Forall_insert; [exact Hd | apply ToUint8Clamp_byte].
  - rewrite list_insert_ge by lia. exact Hd.
Qed.

(** X21. The alpha loop of removeBackground keeps the length of the byte
    array (a mask longer than the canvas writes nothing past its end), leaves
    every byte of the pixels after the end of the mask as it was, and keeps
    the array an array of bytes: whatever numbers the mask holds (NaN and
    infinities included), every element of the result is between 0 and 255
    when every element of the canvas was. *)
Theorem removeBackground_keeps_byte_array (mask : list float) (d : list Z) :
  length (removeBackground mask d) = length d
  /\ (forall j, (4 * length mask <= j)%nat -> removeBackground mask d !! j = d !! j)
  /\ (Forall (fun v => 0 <= v <= 255) d ->
      Forall (fun v => 0 <= v <= 255) (removeBackground mask d)).
Proof.
  unfold removeBackground. split; [apply alpha_loop_length |]. split.
  - intros j Hj. apply alpha_loop_untouched. intros i Hi. lia.
  - apply alpha_loop_bytes.
Qed.

End AlphaChannelKeeps.

(** ** More on the stacking order *)

Section StackingOrder.
Import OverlayCreator.

Lemma first_by_z_top (rows : list Overlay) :
  forall best : option Overlay,
    (forall o, o ∈ rows -> z_index o <> None) ->
    (forall b, best = Some b -> z_index b <> None) ->
    match first_by_z rows best with
    | None => rows = [] /\ best = None
    | Some t =>
        exists m, z_index t = Some m
          /\ (forall o z, o ∈ rows -> z_index o = Some z -> z <= m)
          /\ (forall b z, best = Some b -> z_index b = Some z -> z <= m)
    end.
Proof.
  induction rows as [| r rows IH]; intros best Hrows Hbest; cbn [first_by_z].
  - destruct best as [b |]; [| now split].
    destruct (z_index b) as [m |] eqn:Hb; [| now destruct (Hbest b eq_refl)].
    exists m. split; [reflexivity |]. split.
    + intros o z Ho. now apply elem_of_nil in Ho.
    + intros b' z [= <-] Hz. rewrite Hb in Hz. injection Hz as <-. lia.
  - assert (Hr : z_index r <> None) by (apply Hrows, list_elem_of_here).
    assert (Hrest : forall o, o ∈ rows -> z_index o <> None)
      by (intros o Ho; apply Hrows; now apply list_elem_of_further).
    destruct (z_index r) as [zr |] eqn:Hzr; [| contradiction].
    destruct best as [b |].
    + destruct (z_index b) as [zb |] eqn:Hzb; [| now destruct (Hbest b eq_refl)].
      cbn [sorts_before].
      destruct (Z.leb_spec zr zb) as [Hle | Hgt].
      * specialize (IH (Some b) Hrest Hbest).
        destruct (first_by_z rows (Some b)) as [t |]; [| now destruct IH].
        destruct IH as (m & Ht & Hall & Hb). exists m. split; [exact Ht |].
        assert (zb <= m) by now apply (Hb b zb).
        split.
        -- intros o z Ho Hz. apply elem_of_cons in Ho as [-> | Ho]; [| now apply (Hall o)].
           rewrite Hzr in Hz. injection Hz as <-. lia.
        -- intros b' z [= <-] Hz. rewrite Hzb in Hz. injection Hz as <-. lia.
      * assert (Hbest' : forall b', Some r = Some b' -> z_index b' <> None)
          by (intros b' [= <-]; now rewrite Hzr).
        specialize (IH (Some r) Hrest Hbest').
        destruct (first_by_z rows (Some r)) as [t |]; [| now destruct IH].
        destruct IH as (m & Ht & Hall & Hb). exists m. split; [exact Ht |].
        assert (zr <= m) by now apply (Hb r zr).
        split.
        -- intros o z Ho Hz. apply elem_of_cons in Ho as [-> | Ho]; [| now apply (Hall o)].
           rewrite Hzr in Hz. injection Hz as <-. lia.
        -- intros b' z [= <-] Hz. rewrite Hzb in Hz. injection Hz as <-. lia.
    + assert (Hbest' : forall b', Some r = Some b' -> z_index b' <> None)
        by (intros b' [= <-]; now rewrite Hzr).
      specialize (IH (Some r) Hrest Hbest').
      destruct (first_by_z rows (Some r)) as [t |]; [| now destruct IH].
      destruct IH as (m & Ht & Hall & Hb). exists m. split; [exact Ht |].
      assert (zr <= m) by now apply (Hb r zr).
      split.
      * intros o z Ho Hz. apply elem_of_cons in Ho as [-> | Ho]; [| now apply (Hall o)].
        rewrite Hzr in Hz. injection Hz as <-. lia.
      * intros b' z [=].
Qed.

Lemma first_by_z_null_stays (rows : list Overlay) :
  forall b, z_index b = None ->
    exists t, first_by_z rows (Some b) = Some t /\ z_index t = None.
Proof.
  induction rows as [| r rows IH]; intros b Hb; cbn [first_by_z].
  - now exists b.
  - rewrite Hb. cbn [sorts_before]. now apply IH.
Qed.

Lemma first_by_z_null (rows : list Overlay) :
  forall best o, o ∈ rows -> z_index o = None ->
    exists t, first_by_z rows best = Some t /\ z_index t = None.
Proof.
  induction rows as [| r rows IH]; intros best o Ho Hz; [now apply elem_of_nil in Ho |].
  cbn [first_by_z].
  destruct (z_index r) as [zr |] eqn:Hzr.
  - apply elem_of_cons in Ho as [-> | Ho]; [congruence |].
    destruct best as [b |]; now apply (IH _ o).
  - destruct best as [b |]; [| now apply first_by_z_null_stays].
    destruct (z_index b) eqn:Hzb; cbn [sorts_before]; now apply first_by_z_null_stays.
Qed.

Lemma maxZData_top (overlays : list Overlay) (baseMapId : string) (o : Overlay) (z : Z) :
  (forall o', o' ∈ overlays -> base_map_id o' = baseMapId -> z_index o' <> None) ->
  o ∈ overlays -> base_map_id o = baseMapId -> z_index o = Some z ->
  z <= nextZIndex (maxZData overlays baseMapId)
  /\ (z = nextZIndex (maxZData overlays baseMapId) -> z = 0).
Proof.
  intros Hnn Ho Hb Hz.
  pose (own := fun o' : Overlay => Is_true (String.eqb (base_map_id o') baseMapId)).
  assert (Hown : forall o', o' ∈ filter own overlays <->
                            o' ∈ overlays /\ base_map_id o' = baseMapId).
  { intros o'. rewrite list_elem_of_filter. unfold own.
    destruct (String.eqb_spec (base_map_id o') baseMapId); cbn; tauto. }
  assert (Hrows : forall o', o' ∈ filter own overlays -> z_index o' <> None).
  { intros o' Ho'. apply Hown in Ho' as [Ho' Hb']. now apply Hnn. }
  pose proof (first_by_z_top (filter own overlays) None Hrows
                ltac:(intros ? [=])) as Htop.
  unfold maxZData. fold own.
  destruct (first_by_z (filter own overlays) None) as [t |].
  - destruct Htop as (m & Ht & Hall & _).
    assert (z <= m) by (apply (Hall o z); [now apply Hown | exact Hz]).
    unfold nextZIndex. destruct t as [tb tz]. cbn [z_index] in Ht. subst tz.
    destruct (Z.eqb_spec m 0); lia.
  - destruct Htop as [Hnil _].
    assert (Hin : o ∈ filter own overlays) by now apply Hown.
    rewrite Hnil in Hin. now apply elem_of_nil in Hin.
Qed.

(** X22. When the form is filled in, the upload succeeds and the max-z query
    answers with its data, and no overlay of the base map has a NULL stacking
    order, the stacking order handleSave computes is never below an existing
    overlay of that base map, and equals one only at 0; the row is added when
    the insert answers and the number fits the integer column, and otherwise
    the table stays as it is.  When the query answers with an error, which
    the code does not look at, the new overlay gets stacking order 0,
    whatever the existing overlays have. *)
Theorem handleSave_stacks_on_top
    (s : Session) (overlays : list Overlay) (baseMapId : string) (o : Overlay) (z : Z) :
  form_filled s = true -> upload_fault s = None ->
  (forall o', o' ∈ overlays -> base_map_id o' = baseMapId -> z_index o' <> None) ->
  o ∈ overlays -> base_map_id o = baseMapId -> z_index o = Some z ->
  (select_fault s = None ->
   let n := nextZIndex (maxZData overlays baseMapId) in
   z <= n /\ (z = n -> n = 0)
   /\ handleSave s overlays baseMapId
      = if bool_decide (insert_fault s = None) && int4 n
        then overlays ++ [ {| base_map_id := baseMapId; z_index := Some n |} ]
        else overlays)
  /\ (forall e, select_fault s = Some (ReplyError e) ->
       handleSave s overlays baseMapId
       = if bool_decide (insert_fault s = None)
         then overlays ++ [ {| base_map_id := baseMapId; z_index := Some 0 |} ]
         else overlays).
Proof.
  intros Hform Hup Hnn Ho Hb Hz. unfold handleSave. rewrite Hform, Hup. cbn [negb].
  split.
  - intros Hsel. cbn zeta. rewrite Hsel.
    destruct (maxZData_top overlays baseMapId o z Hnn Ho Hb Hz) as [Hle Heq].
    split; [exact Hle |]. split; [intros H; rewrite <- H; now apply Heq |].
    destruct (insert_fault s) as [f |]; [reflexivity |].
    rewrite bool_decide_eq_true_2 by reflexivity. reflexivity.
  - intros e Hsel. rewrite Hsel.
    destruct (insert_fault s) as [f |]; [reflexivity |].
    rewrite bool_decide_eq_true_2 by reflexivity. reflexivity.
Qed.

Lemma handleSave_stacks_on_top_witness :
  handleSave healthy
    [ {| base_map_id := "map-1"; z_index := Some 2 |};
      {| base_map_id := "map-2"; z_index := None |};
      {| base_map_id := "map-1"; z_index := Some 5 |} ] "map-1"
  = [ {| base_map_id := "map-1"; z_index := Some 2 |};
      {| base_map_id := "map-2"; z_index := None |};
      {| base_map_id := "map-1"; z_index := Some 5 |};
      {| base_map_id := "map-1"; z_index := Some 6 |} ].
Proof.
  refine (proj2 (proj2 (proj1 (handleSave_stacks_on_top healthy _ "map-1"
            {| base_map_id := "map-1"; z_index := Some 2 |} 2
            eq_refl eq_refl _ _ eq_refl eq_refl) eq_refl))).
  - intros o' Ho' Hb'.
    repeat (apply elem_of_cons in Ho' as [-> | Ho']; [try discriminate |]).
    now apply elem_of_nil in Ho'.
  - apply list_elem_of_here.
Defined.

(** X23. An overlay of the base map whose stacking order is NULL is the first
    row of the descending query, so handleSave then gives the new overlay
    stacking order 0, however high the other overlays of that base map are;
    and a base map without overlays gets 0 for its first one, whatever other
    base maps hold. *)
Theorem handleSave_restarts_at_zero (overlays : list Overlay) (baseMapId : string) :
  ((exists o, o ∈ overlays /\ base_map_id o = baseMapId /\ z_index o = None)
   \/ (forall o, o ∈ overlays -> base_map_id o <> baseMapId)) ->
  handleSave healthy overlays baseMapId
  = overlays ++ [ {| base_map_id := baseMapId; z_index := Some 0 |} ].
Proof.
  intros Hcase.
  assert (Hz : nextZIndex (maxZData overlays baseMapId) = 0).
  { unfold maxZData. destruct Hcase as [(o & Ho & Hb & Hz) | Hnone].
    - destruct (first_by_z_null
                  (filter (fun o => Is_true (String.eqb (base_map_id o) baseMapId)) overlays)
                  None o) as (t & -> & Ht); [| exact Hz |].
      + apply list_elem_of_filter. split; [| exact Ho].
        rewrite Hb, String.eqb_refl. exact I.
      + unfold nextZIndex. destruct t as [tb tz]. cbn [z_index] in Ht. now subst tz.
    - replace (filter (fun o => Is_true (String.eqb (base_map_id o) baseMapId)) overlays)
        with (@nil Overlay); [reflexivity |].
      symmetry. induction overlays as [| o overlays IH]; [reflexivity |].
      rewrite filter_cons_False.
      + apply IH. intros o' Ho'. apply Hnone. now apply list_elem_of_further.
      + destruct (String.eqb_spec (base_map_id o) baseMapId) as [He |]; [| now cbn].
        now destruct (Hnone o (list_elem_of_here _ _)). }
  unfold handleSave, healthy.
  cbn [form_filled upload_fault select_fault insert_fault negb].
  rewrite Hz. reflexivity.
Qed.

Lemma handleSave_restarts_at_zero_witness :
  handleSave healthy
    [ {| base_map_id := "map-1"; z_index := Some 9 |};
      {| base_map_id := "map-1"; z_index := None |} ] "map-1"
  = [ {| base_map_id := "map-1"; z_index := Some 9 |};
      {| base_map_id := "map-1"; z_index := None |};
      {| base_map_id := "map-1"; z_index := Some 0 |} ].
Proof.
  apply handleSave_restarts_at_zero. left.
  exists {| base_map_id := "map-1"; z_index := None |}.
  split; [| now split]. apply list_elem_of_further, list_elem_of_here.
Defined.

End StackingOrder.

(** ** The path of the cleaned map *)

Section CleanFileName.
Import Stdlib.Strings.Ascii SaveClean.

Lemma append_cons c (a b : string) : String c a +:+ b = String c (a +:+ b).
Proof. reflexivity. Qed.

Lemma append_nil (b : string) : EmptyString +:+ b = b.
Proof. reflexivity. Qed.

Lemma no_dot_app_dot (a b : string) : no_dot (a +:+ String "."%char b) = false.
Proof.
  induction a as [| c a IH]; [reflexivity |].
  rewrite append_cons. cbn [no_dot]. rewrite IH. apply andb_false_r.
Qed.

Lemma extension_at_no_dot (s : string) : no_dot s = true -> extension_at s = false.
Proof.
  destruct s as [| c [| c' s]]; cbn; intros H; try reflexivity.
  apply andb_true_iff in H as [Hc _].
  destruct (Strings.Ascii.eqb c "."%char); [discriminate | reflexivity].
Qed.

Lemma no_dot_tail c s : no_dot (String c s) = true -> no_dot s = true.
Proof. cbn. intros H. now apply andb_true_iff in H. Qed.

(** X24. A path that ends in an extension (a dot followed by at least one
    character, none of them a dot) gets _clean inserted before that last
    dot, whatever precedes it, dots included. *)
Theorem cleanFileName_inserts_before_extension (stem ext : string) :
  ext <> EmptyString -> no_dot ext = true ->
  cleanFileName (stem +:+ String "."%char ext) = stem +:+ "_clean" +:+ String "."%char ext.
Proof.
  intros Hne Hext.
  induction stem as [| c stem IH].
  - rewrite !append_nil. cbn [cleanFileName extension_at].
    destruct ext as [| e ext]; [contradiction |].
    rewrite Hext. reflexivity.
  - rewrite !append_cons. cbn [cleanFileName]. rewrite IH.
    replace (extension_at (String c (stem +:+ String "."%char ext))) with false; [reflexivity |].
    symmetry. cbn [extension_at].
    destruct (stem +:+ String "."%char ext) eqn:Hs; [reflexivity |].
    rewrite <- Hs, no_dot_app_dot. apply andb_false_r.
Qed.

Lemma cleanFileName_inserts_before_extension_witness :
  cleanFileName "maps/v1.2/europe.final.png" = "maps/v1.2/europe.final_clean.png".
Proof.
  apply (cleanFileName_inserts_before_extension "maps/v1.2/europe.final" "png").
  - discriminate.
  - reflexivity.
Defined.

(** X25. A path without a dot, and a path that ends in a dot, is returned
    unchanged: handleSaveClean then uploads the cleaned image, with upsert, to
    the path of the original file. *)
Theorem cleanFileName_without_extension (file_path : string) :
  no_dot file_path = true \/ (exists stem, file_path = stem +:+ ".") ->
  cleanFileName file_path = file_path.
Proof.
  intros [Hnd | [stem ->]].
  - induction file_path as [| c s IH]; [reflexivity |].
    cbn [cleanFileName]. rewrite (extension_at_no_dot _ Hnd).
    now rewrite IH by exact (no_dot_tail _ _ Hnd).
  - induction stem as [| c stem IH]; [reflexivity |].
    rewrite append_cons. cbn [cleanFileName]. rewrite IH.
    replace (extension_at (String c (stem +:+ "."))) with false; [reflexivity |].
    symmetry. cbn [extension_at].
    destruct (stem +:+ ".") eqn:Hs; [reflexivity |].
    rewrite <- Hs, (no_dot_app_dot stem ""). apply andb_false_r.
Qed.

Lemma cleanFileName_without_extension_witness :
  cleanFileName "maps/europe" = "maps/europe" /\ cleanFileName "v1.maps/europe." = "v1.maps/europe.".
Proof.
  split.
  - apply cleanFileName_without_extension. left. reflexivity.
  - apply cleanFileName_without_extension. right. now exists "v1.maps/europe".
Defined.

End CleanFileName.

(** ** Setting the registration marks *)

Section RegistrationMarks.
Import RegistrationEditor.

Lemma react_in_order (s : State) (ev : Event) : in_order s -> in_order (react s ev).
Proof.
  intros Hs. unfold react.
  destruct (offered s ev) eqn:Hoff; [| exact Hs].
  destruct ev as [canvasRef e | |].
  - unfold handleCanvasClick. destruct s as [pts cur]. unfold in_order in *.
    cbn [points currentPoint] in *.
    destruct cur as [[| |] |]; destruct canvasRef as [canvas |]; try exact Hs;
      cbn [points currentPoint].
    + subst pts. eexists. reflexivity.
    + destruct Hs as [p ->]. do 2 eexists. reflexivity.
    + destruct Hs as (p & q & ->). right. do 3 eexists. reflexivity.
  - reflexivity.
  - destruct s as [pts cur]. unfold in_order, offered, allPointsSet in *.
    cbn [points currentPoint] in *.
    destruct cur as [c |]; [discriminate |].
    destruct Hs as [-> | (p & q & r & ->)]; [reflexivity |].
    cbn in Hoff. discriminate.
Qed.

(** X26. From a stored registration (all three marks) or from none, whatever
    the user does, the marks are set in the order top-left, top-right,
    bottom-left; all points are set (and Save is enabled) exactly when no mark
    is being asked for and points is not null; and "Start Setting Points" is
    offered only in the state the component starts in without a stored
    registration. *)
Theorem registration_marks_set_in_order
    (existingRegistration : option RegistrationData) (events : list Event) :
  (forall d, existingRegistration = Some d -> complete d) ->
  let s := fold_left react events (initial existingRegistration) in
  in_order s
  /\ (allPointsSet s = true <-> currentPoint s = None /\ points s <> None)
  /\ (offered s Start = true -> s = initial None).
Proof.
  intros Hex s.
  assert (Hord : in_order s).
  { subst s. assert (H0 : in_order (initial existingRegistration)).
    { unfold in_order, initial. cbn [points currentPoint].
      destruct existingRegistration as [d |]; [| now left].
      destruct (Hex d eq_refl) as ([p Hp] & [q Hq] & [r Hr]).
      right. exists p, q, r. destruct d as [a b c]. cbn in *. now subst. }
    revert H0. generalize (initial existingRegistration).
    induction events as [| ev events IH]; intros s0 H0; cbn [fold_left]; [exact H0 |].
    apply IH. now apply react_in_order. }
  split; [exact Hord |].
  destruct s as [pts cur]. unfold in_order, allPointsSet, offered, allPointsSet, initial in *.
  cbn [points currentPoint] in *. clear Hex.
  destruct cur as [[| |] |].
  - subst pts. split; [split; [discriminate | intros [[=] _]] | discriminate].
  - destruct Hord as [p ->]. cbn. split; [split; [discriminate | intros [[=] _]] | discriminate].
  - destruct Hord as (p & q & ->). cbn.
    split; [split; [discriminate | intros [[=] _]] | discriminate].
  - destruct Hord as [-> | (p & q & r & ->)]; cbn.
    + split; [split; [discriminate | intros [_ H]; now destruct H] | reflexivity].
    + split; [split; [now intros _ | reflexivity] | discriminate].
Qed.

Lemma registration_marks_set_in_order_witness :
  in_order (fold_left react
              [Reset; Click (Some sample_canvas) (sample_click 110 70); Start;
               Click None (sample_click 1 1); Click (Some sample_canvas) (sample_click 410 70)]
              (initial (Some {| tl := Some {| x := 1; y := 2 |};
                                tr := Some {| x := 3; y := 4 |};
                                bl := Some {| x := 5; y := 6 |} |}))).
Proof.
  refine (proj1 (registration_marks_set_in_order _ _ _)).
  intros d [= <-]. unfold complete. cbn. repeat split; eexists; reflexivity.
Defined.

(** X27. After Reset, three clicks on the canvas set the top-left, the
    top-right and the bottom-left mark, in this order, to the clicked
    positions scaled to the canvas; the earlier marks are gone, all points
    are then set, and further clicks change nothing. *)
Theorem reset_then_three_clicks
    (s : State) (c1 c2 c3 : Canvas) (e1 e2 e3 : MouseEvent) (more : list (option Canvas * MouseEvent)) :
  let done := {| points := Some {| tl := Some (clicked c1 e1);
                                   tr := Some (clicked c2 e2);
                                   bl := Some (clicked c3 e3) |};
                 currentPoint := None |} in
  fold_left react [Click (Some c1) e1; Click (Some c2) e2; Click (Some c3) e3] (handleReset s)
  = done
  /\ allPointsSet done = true
  /\ fold_left react (map (fun ce => Click (fst ce) (snd ce)) more) done = done.
Proof.
  intros done. split; [reflexivity |]. split; [reflexivity |].
  induction more as [| [c e] more IH]; [reflexivity |].
  cbn [map fold_left]. exact IH.
Qed.

End RegistrationMarks.
